(** * beatmaplinker: a shallow embedding of beatmapbot.py

    Python strings are modelled as Rocq [string]s whose characters are read
    as Latin-1 code points (the code only inspects ASCII structure: "/b/",
    "&", "?", "#", digits).  Python exceptions are modelled by the result
    type [res]; state mutated before an exception is kept, as in Python. *)

From Stdlib Require Import Ascii String ZArith DecimalZ.
From stdpp Require Import base list gmap sets strings.

(* ------------------------------------------------------------------ *)
(** ** Exceptions and the result type *)

Inductive exn :=
  | TypeError
  | ValueError
  | AttributeError
  | IndexError
  | RemoteError      (** osu! api failure (transport or "error" reply) *)
  | PlatformError.   (** reddit failure (network, auth, rate limit) *)

Inductive res (A : Type) :=
  | Ok (a : A)
  | Raise (e : exn).
Arguments Ok {A} a.
Arguments Raise {A} e.

Global Instance res_ret : MRet res := fun _ a => Ok a.
Global Instance res_bind : MBind res := fun A B f m =>
  match m with Ok a => f a | Raise e => Raise e end.

(* ------------------------------------------------------------------ *)
(** ** String helpers (Python str methods) *)

Module Str.

Definition char_eqb (a b : ascii) : bool := Ascii.eqb a b.

(** [c in s] *)
Fixpoint mem (c : ascii) (s : string) : bool :=
  match s with
  | EmptyString => false
  | String c' s' => char_eqb c c' || mem c s'
  end.

(** [s.find(c)] as an option (None for -1) *)
Fixpoint find (c : ascii) (s : string) : option nat :=
  match s with
  | EmptyString => None
  | String c' s' => if char_eqb c c' then Some 0 else S <$> find c s'
  end.

(** [s[:n]] *)
Fixpoint take (n : nat) (s : string) : string :=
  match n, s with
  | O, _ => EmptyString
  | S n', String c s' => String c (take n' s')
  | S _, EmptyString => EmptyString
  end.

(** [s[n:]] *)
Fixpoint drop (n : nat) (s : string) : string :=
  match n, s with
  | O, _ => s
  | S n', String _ s' => drop n' s'
  | S _, EmptyString => EmptyString
  end.

(** [s.startswith(p)] *)
Definition startswith (p s : string) : bool := String.prefix p s.

(** [s.split(c, 1)]: None when [c] does not occur *)
Definition split_once (c : ascii) (s : string) : option (string * string) :=
  match find c s with
  | Some i => Some (take i s, drop (S i) s)
  | None => None
  end.

(** [s.split(c)] *)
Fixpoint split (c : ascii) (s : string) : list string :=
  match s with
  | EmptyString => [EmptyString]
  | String c' s' =>
      if char_eqb c c' then EmptyString :: split c s'
      else match split c s' with
           | w :: ws => String c' w :: ws
           | [] => [String c' EmptyString]
           end
  end.

(** [s.replace(a, b)] for single characters *)
Fixpoint replace_char (a b : ascii) (s : string) : string :=
  match s with
  | EmptyString => EmptyString
  | String c s' => String (if char_eqb a c then b else c) (replace_char a b s')
  end.

Fixpoint filter_chars (keep : ascii -> bool) (s : string) : string :=
  match s with
  | EmptyString => EmptyString
  | String c s' =>
      if keep c then String c (filter_chars keep s') else filter_chars keep s'
  end.

Fixpoint forall_chars (p : ascii -> bool) (s : string) : bool :=
  match s with
  | EmptyString => true
  | String c s' => p c && forall_chars p s'
  end.

Definition code (c : ascii) : nat := nat_of_ascii c.

(** [c.isdigit()] for code points below 256: the ASCII digits and the
    Latin-1 superscripts one, two and three. *)
Definition is_digit_char (c : ascii) : bool :=
  ((48 <=? code c) && (code c <=? 57)) ||
  Nat.eqb (code c) 178 || Nat.eqb (code c) 179 || Nat.eqb (code c) 185.

(** [s.isdigit()]: false on the empty string *)
Definition isdigit (s : string) : bool :=
  match s with
  | EmptyString => false
  | _ => forall_chars is_digit_char s
  end.

Definition is_ascii_alpha (c : ascii) : bool :=
  ((65 <=? code c) && (code c <=? 90)) || ((97 <=? code c) && (code c <=? 122)).

Definition lower_char (c : ascii) : ascii :=
  if (65 <=? code c) && (code c <=? 90) then ascii_of_nat (code c + 32) else c.

(** [s.lower()] on ASCII *)
Fixpoint lower (s : string) : string :=
  match s with
  | EmptyString => EmptyString
  | String c s' => String (lower_char c) (lower s')
  end.

End Str.

(* ------------------------------------------------------------------ *)
(** ** urllib.parse.urlparse (CPython 3.12 urlsplit + _splitparams)

    Validation of bracketed IPv6 hosts (_check_bracketed_netloc) is not
    modelled; the unmatched-bracket check is.  _checknetloc never raises on
    code points below 256. *)

Module Url.

Record parse_result := {
  scheme : string;
  netloc : string;
  path : string;
  params : string;
  query : string;
  fragment : string
}.

Fixpoint lstrip_c0 (s : string) : string :=
  match s with
  | EmptyString => EmptyString
  | String c s' => if Str.code c <=? 32 then lstrip_c0 s' else s
  end.

Definition unsafe_byte (c : ascii) : bool :=
  Nat.eqb (Str.code c) 9 || Nat.eqb (Str.code c) 13 || Nat.eqb (Str.code c) 10.

Definition scheme_char (c : ascii) : bool :=
  Str.is_ascii_alpha c ||
  ((48 <=? Str.code c) && (Str.code c <=? 57)) ||
  Str.char_eqb c "+" || Str.char_eqb c "-" || Str.char_eqb c ".".

(** _splitnetloc(url, 2) *)
Definition splitnetloc2 (url : string) : string * string :=
  let rest := Str.drop 2 url in
  let cands := omap (fun c => Str.find c rest) ["/"; "?"; "#"]%char in
  let delim := foldr Nat.min (String.length rest) cands in
  (Str.take delim rest, Str.drop delim rest).

Definition urlsplit (url0 : string) : res (string * string * string * string * string) :=
  let url1 := Str.filter_chars (fun c => negb (unsafe_byte c)) (lstrip_c0 url0) in
  let '(scheme, url2) :=
    match Str.find ":" url1 with
    | Some (S _ as i) =>
        match url1 with
        | String c0 _ =>
            if Str.is_ascii_alpha c0 && Str.forall_chars scheme_char (Str.take i url1)
            then (Str.lower (Str.take i url1), Str.drop (S i) url1)
            else (EmptyString, url1)
        | EmptyString => (EmptyString, url1)
        end
    | _ => (EmptyString, url1)
    end in
  let '(netloc, url3) :=
    if String.eqb (Str.take 2 url2) "//" then splitnetloc2 url2
    else (EmptyString, url2) in
  if xorb (Str.mem "[" netloc) (Str.mem "]" netloc) then Raise ValueError
  else
    let '(url4, fragment) :=
      match Str.split_once "#" url3 with Some p => p | None => (url3, EmptyString) end in
    let '(url5, query) :=
      match Str.split_once "?" url4 with Some p => p | None => (url4, EmptyString) end in
    Ok (scheme, netloc, url5, query, fragment).

Definition uses_params : list string :=
  [EmptyString; "ftp"; "hdl"; "prospero"; "http"; "imap"; "https"; "shttp"; "rtsp";
   "rtsps"; "rtspu"; "sip"; "sips"; "mms"; "sftp"; "tel"].

Fixpoint rfind (c : ascii) (s : string) : option nat :=
  match s with
  | EmptyString => None
  | String c' s' =>
      match rfind c s' with
      | Some i => Some (S i)
      | None => if Str.char_eqb c c' then Some 0 else None
      end
  end.

(** _splitparams(url) *)
Definition splitparams (url : string) : string * string :=
  let split_at i := (Str.take i url, Str.drop (S i) url) in
  match rfind "/" url with
  | Some j =>
      match Str.find ";" (Str.drop j url) with
      | Some k => split_at (j + k)
      | None => (url, EmptyString)
      end
  | None =>
      match Str.find ";" url with
      | Some i => split_at i
      | None => (url, EmptyString)  (* unreachable: ';' is in url *)
      end
  end.

Definition urlparse (url : string) : res parse_result :=
  '(scheme, netloc, url', query, fragment) ← urlsplit url;
  let '(p, params) :=
    if bool_decide (scheme ∈ uses_params) && Str.mem ";" url'
    then splitparams url' else (url', EmptyString) in
  Ok {| scheme := scheme; netloc := netloc; path := p; params := params;
        query := query; fragment := fragment |}.

End Url.

(* ------------------------------------------------------------------ *)
(** ** urllib.parse.parse_qs and get_map_params

    [unquote] is urllib.parse.unquote (percent-decoding, UTF-8); the
    theorems below hold for any decoding function. *)

Section Params.

Variable unquote : string -> string.

(** _unquote in parse_qsl: [unquote(s.replace('+', ' '))] *)
Definition qs_unquote (s : string) : string :=
  unquote (Str.replace_char "+" " " s).

(** parse_qsl(qs), keep_blank_values=False, strict_parsing=False, separator='&' *)
Definition parse_qsl (qs : string) : list (string * string) :=
  mjoin (map (fun name_value =>
    match name_value with
    | EmptyString => []
    | _ =>
        match Str.split_once "=" name_value with
        | None => []                                (* no '=': dropped *)
        | Some (n, EmptyString) => []               (* blank value: dropped *)
        | Some (n, v) => [(qs_unquote n, qs_unquote v)]
        end
    end) (Str.split "&" qs)).

(** parse_qs(qs): a dict from names to the list of their values *)
Definition parse_qs (qs : string) : gmap string (list string) :=
  foldl (fun (parsed : gmap string (list string)) '(name, value) =>
           match parsed !! name with
           | Some vs => <[name := vs ++ [value]]> parsed
           | None => <[name := [value]]> parsed
           end) ∅ (parse_qsl qs).

(** [query[k][0]] *)
Definition first_value (vs : list string) : res string :=
  match vs with v :: _ => Ok v | [] => Raise IndexError end.

(** [if "&" in map_id: map_id = map_id[:map_id.index("&")]] *)
Definition before_amp (map_id : string) : string :=
  match Str.find "&" map_id with
  | Some i => Str.take i map_id
  | None => map_id
  end.

(** The body of get_map_params after [parsed = urllib.parse.urlparse(url)]. *)
Definition get_map_params_parsed (parsed : Url.parse_result)
    : res (option (string * string)) :=
  '(map_type, map_id) ←
    (if Str.startswith "/b/" (Url.path parsed)
     then Ok (Some "b", Some (Str.drop 3 (Url.path parsed)))
     else if Str.startswith "/s/" (Url.path parsed)
     then Ok (Some "s", Some (Str.drop 3 (Url.path parsed)))
     else if String.eqb (Url.path parsed) "/p/beatmap"
     then
       let query := parse_qs (Url.query parsed) in
       match query !! "b" with
       | Some vs => v ← first_value vs; Ok (Some "b", Some v)
       | None =>
           match query !! "s" with
           | Some vs => v ← first_value vs; Ok (Some "s", Some v)
           | None => Ok (None, None)
           end
       end
     else Ok (None, None)) : res (option string * option string);
  match map_id with
  | None => Raise TypeError                   (* "&" in None *)
  | Some map_id =>
      let map_id := before_amp map_id in
      match map_type with
      | Some (String _ _ as t) =>
          if Str.isdigit map_id then Ok (Some (t, map_id)) else Ok None
      | _ => Ok None                          (* map_type falsy *)
      end
  end.

(** get_map_params(url): [Ok (Some (type, id))], [Ok None] for False. *)
Definition get_map_params (url : string) : res (option (string * string)) :=
  parsed ← Url.urlparse url;
  get_map_params_parsed parsed.

End Params.

(** A concrete percent-decoder for examples: '%XX' with XX two hex digits
    decodes to the character XX; it agrees with urllib.parse.unquote on
    every input whose escapes decode to ASCII (and on inputs without '%'). *)
Definition hex_val (c : ascii) : option nat :=
  let n := Str.code c in
  if (48 <=? n) && (n <=? 57) then Some (n - 48)
  else if (65 <=? n) && (n <=? 70) then Some (n - 55)
  else if (97 <=? n) && (n <=? 102) then Some (n - 87)
  else None.

Fixpoint unquote_ascii (s : string) : string :=
  match s with
  | EmptyString => EmptyString
  | String c rest =>
      let keep := String c (unquote_ascii rest) in
      if Str.char_eqb c "%" then
        match rest with
        | String h (String l rest') =>
            match hex_val h, hex_val l with
            | Some x, Some y => String (ascii_of_nat (16 * x + y)) (unquote_ascii rest')
            | _, _ => keep
            end
        | _ => keep
        end
      else keep
  end.



(* ------------------------------------------------------------------ *)
(** ** URL_REGEX and the extractor

    URL_REGEX = <a href=Q(?P<url>https?://osu\.ppy\.sh/[^Q]+)Q>(?P=url)</a>
    where Q stands for the double-quote character.

    The match is deterministic: [^Q]+ must be followed by Q, so it spans
    exactly the characters up to the first Q, and the optional s can only
    be dropped if :// followed http, which it does not when an s is there. *)

Definition dq : ascii := ascii_of_nat 34.

Definition strip_prefix (p s : string) : option string :=
  if String.prefix p s then Some (Str.drop (String.length p) s) else None.

Definition regex_host : string := "://osu.ppy.sh/".

(** A match of URL_REGEX anchored at the start of [s]: the [url] group
    and the text after the match. *)
Definition url_regex_match (s : string) : option (string * string) :=
  s1 ← strip_prefix ("<a href=" +:+ String dq "http") s;
  let '(scheme, s2) :=
    match strip_prefix "s" s1 with
    | Some s2 => ("https", s2)
    | None => ("http", s1)
    end in
  s3 ← strip_prefix regex_host s2;
  i ← Str.find dq s3;
  match i with
  | O => None                                  (* [^Q]+ needs one character *)
  | S _ =>
      let url := scheme +:+ regex_host +:+ Str.take i s3 in
      s4 ← strip_prefix (String dq ">") (Str.drop i s3);
      s5 ← strip_prefix url s4;
      s6 ← strip_prefix "</a>" s5;
      Some (url, s6)
  end.

(** URL_REGEX.findall(s): scan left to right; after a match, resume at its
    end, otherwise advance one character.  [skip] counts the characters of
    the last match still to be passed over. *)
Fixpoint findall_from (skip : nat) (s : string) : list string :=
  match s with
  | EmptyString => []
  | String _ s' =>
      match skip with
      | S k => findall_from k s'
      | O =>
          match url_regex_match s with
          | Some (url, rest) =>
              url :: findall_from (String.length s - String.length rest - 1) s'
          | None => findall_from 0 s'
          end
      end
  end.

Definition findall (s : string) : list string := findall_from 0 s.

Record comment := {
  c_id : string;
  c_author : option string;        (** None: deleted account *)
  c_body_html : string;
  c_permalink : string
}.

Record submission := {
  s_id : string;
  s_author : option string;
  s_selftext_html : option string  (** None for link posts *)
}.

(** praw.objects.Comment / praw.objects.Submission *)
Inductive thing :=
  | Comment (c : comment)
  | Submission (s : submission).

Definition thing_id (t : thing) : string :=
  match t with Comment c => c_id c | Submission s => s_id s end.

Definition thing_author (t : thing) : option string :=
  match t with Comment c => c_author c | Submission s => s_author s end.

Section Extract.

Variable unescape : string -> string.   (** html.unescape *)
Variable unquote : string -> string.    (** urllib.parse.unquote *)

Definition get_maps_from_html (html_string : string)
    : res (list (string * string)) :=
  rs ← mapM (fun z => get_map_params unquote (unescape z)) (findall html_string);
  Ok (omap id rs).                         (* filter(None, ...) *)

Definition get_maps_from_thing (t : thing) : res (list (string * string)) :=
  match t with
  | Comment c => get_maps_from_html (unescape (c_body_html c))
  | Submission s =>
      match s_selftext_html s with
      | None | Some EmptyString => Ok []     (* not thing.selftext_html *)
      | Some body => get_maps_from_html (unescape body)
      end
  end.

End Extract.

(** A concrete html.unescape for examples: it decodes &amp; &lt; &gt;
    &quot; and &#39; and leaves other text alone, so it agrees with
    html.unescape on every input in which each ampersand starts one of these
    five references (in particular on inputs without an ampersand, which
    html.unescape returns unchanged). *)
Fixpoint unescape_basic (s : string) : string :=
  match s with
  | EmptyString => EmptyString
  | String "&" (String "a" (String "m" (String "p" (String ";" r)))) =>
      String "&" (unescape_basic r)
  | String "&" (String "l" (String "t" (String ";" r))) =>
      String "<" (unescape_basic r)
  | String "&" (String "g" (String "t" (String ";" r))) =>
      String ">" (unescape_basic r)
  | String "&" (String "q" (String "u" (String "o" (String "t" (String ";" r))))) =>
      String dq (unescape_basic r)
  | String "&" (String "#" (String "3" (String "9" (String ";" r)))) =>
      String "'" (unescape_basic r)
  | String c rest => String c (unescape_basic rest)
  end.

Definition anchor (url text : string) : string :=
  "<a href=" +:+ String dq (url +:+ String dq (">" +:+ text +:+ "</a>")).



(* ------------------------------------------------------------------ *)
(** ** remove_dups and format_comment *)

Abbreviation map_ref := (string * string)%type.

(** remove_dups: a generator keeping a Python set of the items seen *)
Fixpoint remove_dups_from (seen : gset map_ref) (l : list map_ref) : list map_ref :=
  match l with
  | [] => []
  | item :: l' =>
      if decide (item ∈ seen) then remove_dups_from seen l'
      else item :: remove_dups_from ({[item]} ∪ seen) l'
  end.

Definition remove_dups (l : list map_ref) : list map_ref := remove_dups_from ∅ l.

Definition newline : ascii := ascii_of_nat 10.
Definition backslash : ascii := ascii_of_nat 92.

(** [s.replace("\\n", "\n")]: a backslash followed by n becomes a newline *)
Fixpoint unescape_newlines (s : string) : string :=
  match s with
  | EmptyString => EmptyString
  | String c rest =>
      match rest with
      | String "n" rest' =>
          if Str.char_eqb c backslash then String newline (unescape_newlines rest')
          else String c (unescape_newlines rest)
      | _ => String c (unescape_newlines rest)
      end
  end.

Definition line_break : string := String newline (String newline EmptyString).

Definition char_limit : nat := 10000.

Section Compose.

Variables header footer : string.      (** config template header / footer *)
Variable sep_cfg : option string.      (** config template sep, if present *)
Variable format_map : map_ref -> res string.   (** metadata lookup + template *)

Definition sep : string :=
  match sep_cfg with
  | Some raw => unescape_newlines raw
  | None => line_break
  end.

Definition base_len : nat :=
  String.length header + String.length footer + String.length line_break * 2.

(** The for loop of format_comment over remove_dups(maps). *)
Fixpoint compose_body (body : string) (maps : list map_ref) : res string :=
  match maps with
  | [] => Ok body
  | beatmap :: rest =>
      next_map ← format_map beatmap;
      if char_limit <? base_len + String.length body + String.length sep
                       + String.length next_map
      then Ok body                                     (* break *)
      else
        let body := match body with
                    | EmptyString => body
                    | _ => body +:+ sep
                    end in
        compose_body (body +:+ next_map) rest
  end.

Definition format_comment (maps : list map_ref) : res string :=
  body ← compose_body EmptyString (remove_dups maps);
  Ok (header +:+ line_break +:+ body +:+ line_break +:+ footer).

End Compose.


Definition fmt_example (r : map_ref) : res string := Ok ("map " +:+ snd r).


(* ------------------------------------------------------------------ *)
(** ** LimitedSet *)

(** Modelled from the spec: limitedset.LimitedSet, the bounded recency set
    imported by beatmapbot.py (its module is not among the sources).  The
    spec (4.1, 3): fixed capacity; adding a present id does nothing; adding
    a new id when the set is full evicts the oldest-inserted id. *)
Module LimitedSet.

Record t := {
  capacity : nat;
  elems : list string   (** oldest first *)
}.

Definition contains (x : string) (s : t) : bool := bool_decide (x ∈ elems s).

Definition add (x : string) (s : t) : t :=
  if contains x s then s
  else
    let l := elems s ++ [x] in
    {| capacity := capacity s;
       elems := if capacity s <? length l then drop 1 l else l |}.

Definition empty (cap : nat) : t := {| capacity := cap; elems := [] |}.

End LimitedSet.

(* ------------------------------------------------------------------ *)
(** ** The reddit side: has_replied, reply, thing_loop *)

(** A reply posted by the bot: (thing id, text). *)
Abbreviation post := (string * string)%type.

(** The reddit API (praw) as seen by the bot.  Each call may fail, and may
    depend on the replies the bot has posted so far. *)
Record platform := {
  (** r.get_submission(permalink).comments: for each first-level comment,
      the authors (None for deleted accounts) of its direct replies *)
  get_submission_tree : list post -> string -> res (list (list (option string)));
  (** submission.comments: the authors of the top-level comments *)
  submission_comments : list post -> submission -> res (list (option string));
  (** thing.reply(text) / submission.add_comment(text) *)
  send_reply : list post -> thing -> string -> res unit
}.

(** State threaded through thing_loop: the stream's LimitedSet and the
    replies posted so far. *)
Record state := {
  seen : LimitedSet.t;
  posted : list post
}.

Definition M (A : Type) : Type := state -> res A * state.

Definition st_ret {A} (a : A) : M A := fun s => (Ok a, s).
Definition st_bind {A B} (m : M A) (k : A -> M B) : M B := fun s =>
  match m s with
  | (Ok a, s') => k a s'
  | (Raise e, s') => (Raise e, s')
  end.
Definition st_lift {A} (r : res A) : M A := fun s => (r, s).
Definition st_get : M state := fun s => (Ok s, s).
Definition st_put (s : state) : M unit := fun _ => (Ok tt, s).

Global Instance st_mret : MRet M := @st_ret.
Global Instance st_mbind : MBind M := fun A B k m => st_bind m k.

Section Bot.

Variable botname : string.               (** config reddit username *)
Variable unescape : string -> string.    (** html.unescape *)
Variable unquote : string -> string.     (** urllib.parse.unquote *)
Variable P : platform.
Variable format_comment_cfg : list map_ref -> res string.
  (** format_comment with the configured templates and metadata lookup *)

(** any(reply.author.name == botname for reply in replies): stops at the
    first match; a deleted author (None) raises AttributeError. *)
Fixpoint any_author_is_bot (authors : list (option string)) : res bool :=
  match authors with
  | [] => Ok false
  | None :: _ => Raise AttributeError
  | Some name :: rest =>
      if String.eqb name botname then Ok true else any_author_is_bot rest
  end.

Definition has_replied (t : thing) : M bool :=
  s ← st_get;
  replies ←
    st_lift (match t with
             | Comment c =>
                 tree ← get_submission_tree P (posted s) (c_permalink c);
                 match tree with
                 | first :: _ => Ok first          (* .comments[0].replies *)
                 | [] => Raise IndexError
                 end
             | Submission sub => submission_comments P (posted s) sub
             end);
  st_lift (any_author_is_bot replies).

Definition reply (t : thing) (text : string) : M unit :=
  match thing_author t with
  | None => st_lift (Raise AttributeError)        (* thing.author.name *)
  | Some name =>
      if String.eqb name botname then st_ret tt   (* "Replying to self." *)
      else
        s ← st_get;
        _ ← st_lift (send_reply P (posted s) t text);
        st_put {| seen := seen s; posted := posted s ++ [(thing_id t, text)] |}
  end.

Fixpoint thing_loop (content : list thing) : M unit :=
  match content with
  | [] => st_ret tt
  | t :: rest =>
      s ← st_get;
      if LimitedSet.contains (thing_id t) (seen s) then st_ret tt   (* break *)
      else
        _ ← st_put {| seen := LimitedSet.add (thing_id t) (seen s);
                      posted := posted s |};
        found ← st_lift (get_maps_from_thing unescape unquote t);
        match found with
        | [] => thing_loop rest                                     (* continue *)
        | _ =>
            replied ← has_replied t;
            if (replied : bool) then st_ret tt                                (* break *)
            else
              text ← st_lift (format_comment_cfg found);
              _ ← reply t text;
              thing_loop rest
        end
  end.

(** The same walk as [thing_loop], returning whether it ran through the
    whole list ([true]) or stopped at one of its two break statements
    ([false]); used to state what happens after a prefix of a stream. *)
Fixpoint thing_loop_ctl (content : list thing) : M bool :=
  match content with
  | [] => st_ret true
  | t :: rest =>
      s ← st_get;
      if LimitedSet.contains (thing_id t) (seen s) then st_ret false
      else
        _ ← st_put {| seen := LimitedSet.add (thing_id t) (seen s);
                      posted := posted s |};
        found ← st_lift (get_maps_from_thing unescape unquote t);
        match found with
        | [] => thing_loop_ctl rest
        | _ =>
            replied ← has_replied t;
            if (replied : bool) then st_ret false
            else
              text ← st_lift (format_comment_cfg found);
              _ ← reply t text;
              thing_loop_ctl rest
        end
  end.

End Bot.

(* ------------------------------------------------------------------ *)
(** ** Module start-up (the config.ini check at the top of the script) *)

Inductive io_event :=
  | Print (line : string)     (** a line on standard output *)
  | Exit (status : nat)       (** process exit with this status *)
  | RunBot.                   (** the rest of the script: config, login, polling *)

(** The interpreter's exit status for SystemExit(code): None gives 0. *)
Definition system_exit_status (code : option nat) : nat :=
  match code with None => 0 | Some n => n end.

(** if not os.path.exists("config.ini"): print(...); print(...); exit()
    where exit() raises SystemExit(None). *)
Definition startup (config_exists : bool) : list io_event :=
  if config_exists then [RunBot]
  else [Print "No config file found.";
        Print "Copy config_example.ini to config.ini and modify to your needs.";
        Exit (system_exit_status None)].

(* ------------------------------------------------------------------ *)
(** ** seconds_to_string and sanitise_md *)

(** The decimal digits of a Decimal.uint. *)
Fixpoint string_of_uint (u : Decimal.uint) : string :=
  match u with
  | Decimal.Nil => EmptyString
  | Decimal.D0 u => String "0" (string_of_uint u)
  | Decimal.D1 u => String "1" (string_of_uint u)
  | Decimal.D2 u => String "2" (string_of_uint u)
  | Decimal.D3 u => String "3" (string_of_uint u)
  | Decimal.D4 u => String "4" (string_of_uint u)
  | Decimal.D5 u => String "5" (string_of_uint u)
  | Decimal.D6 u => String "6" (string_of_uint u)
  | Decimal.D7 u => String "7" (string_of_uint u)
  | Decimal.D8 u => String "8" (string_of_uint u)
  | Decimal.D9 u => String "9" (string_of_uint u)
  end.

Definition string_of_int (d : Decimal.signed_int) : string :=
  match d with
  | Decimal.Pos u => string_of_uint u
  | Decimal.Neg u => String "-" (string_of_uint u)
  end.

(** [str(n)] for a Python int: Z.to_int gives the decimal digits without
    leading zeros ("0" for zero) and the sign of negatives. *)
Definition py_str_int (z : Z) : string := string_of_int (Z.to_int z).

Fixpoint zeros (n : nat) : string :=
  match n with
  | 0 => EmptyString
  | Datatypes.S n' => String "0" (zeros n')
  end.

(** The format spec [0>w]: fill with '0', align right, width w. *)
Definition rjust_zero (w : nat) (s : string) : string :=
  zeros (w - String.length s) +:+ s.

(** "{0}:{1:0>2}".format( *divmod(seconds, 60)); Python's divmod by a
    positive divisor rounds down, as Z.div and Z.modulo do. *)
Definition seconds_to_string (seconds : Z) : string :=
  py_str_int (seconds / 60)%Z +:+ ":" +:+ rjust_zero 2 (py_str_int (seconds mod 60)%Z).

(** [s.replace(old, new)] for a non-empty [old]: scanning left to right,
    each occurrence of [old] not overlapping an earlier one is replaced;
    [skip] counts the characters of a replaced occurrence still to drop. *)
Fixpoint replace_from (old new : string) (skip : nat) (s : string) : string :=
  match skip, s with
  | _, EmptyString => EmptyString
  | Datatypes.S k, String _ rest => replace_from old new k rest
  | 0, String c rest =>
      if String.prefix old s
      then new +:+ replace_from old new (pred (String.length old)) rest
      else String c (replace_from old new 0 rest)
  end.

(** [s.replace("", new)]: [new] before every character and at the end. *)
Fixpoint insert_between (new s : string) : string :=
  match s with
  | EmptyString => new
  | String c rest => new +:+ String c (insert_between new rest)
  end.

Definition str_replace (old new s : string) : string :=
  match old with
  | EmptyString => insert_between new s
  | _ => replace_from old new 0 s
  end.

(** sanitise_md: the two reduce calls of the source, over the characters
    of "*_" and over list("\\[]^") + ["~~"]. *)
Definition sanitise_md (string0 : string) : string :=
  let emphasis := "*_" in
  let escaped :=
    fold_left (fun a b =>
                 str_replace (String b EmptyString)
                   ("&#" +:+ rjust_zero 4 (py_str_int (Z.of_nat (nat_of_ascii b))) +:+ ";") a)
              (list_ascii_of_string emphasis) string0 in
  let other_chars :=
    map (fun c => String c EmptyString) (list_ascii_of_string (String backslash "[]^"))
    ++ ["~~"] in
  fold_left (fun a b => str_replace b (String backslash EmptyString +:+ b) a)
            other_chars escaped.

(* ------------------------------------------------------------------ *)
(** ** Specification-side helpers *)

Definition osu_url (u : string) : Prop :=
  exists scheme rest,
    (scheme = "https" \/ scheme = "http") /\
    rest <> EmptyString /\ Str.mem dq rest = false /\
    u = scheme +:+ regex_host +:+ rest.

(** Python's [sep.join(l)] *)
Definition join (sep : string) (l : list string) : string :=
  match l with
  | [] => EmptyString
  | x :: xs => x +:+ foldr (fun y acc => sep +:+ y +:+ acc) EmptyString xs
  end.

(** Reading back the digits written by [string_of_uint]. *)
Definition digit_of (c : ascii) : option (Decimal.uint -> Decimal.uint) :=
  match c with
  | "0"%char => Some Decimal.D0 | "1"%char => Some Decimal.D1
  | "2"%char => Some Decimal.D2 | "3"%char => Some Decimal.D3
  | "4"%char => Some Decimal.D4 | "5"%char => Some Decimal.D5
  | "6"%char => Some Decimal.D6 | "7"%char => Some Decimal.D7
  | "8"%char => Some Decimal.D8 | "9"%char => Some Decimal.D9
  | _ => None
  end.

Fixpoint parse_uint (s : string) : option Decimal.uint :=
  match s with
  | EmptyString => Some Decimal.Nil
  | String c rest => f ← digit_of c; u ← parse_uint rest; Some (f u)
  end.

Definition parse_int (s : string) : option Decimal.signed_int :=
  match s with
  | String "-" rest => u ← parse_uint rest; Some (Decimal.Neg u)
  | _ => u ← parse_uint s; Some (Decimal.Pos u)
  end.

(** Reading an m:ss string back as a number of seconds. *)
Definition parse_mss (s : string) : option Z :=
  match Str.find ":" s with
  | Some i =>
      m ← parse_int (Str.take i s);
      r ← parse_uint (Str.drop (Datatypes.S i) s);
      Some (60 * Z.of_int m + Z.of_uint r)%Z
  | None => None
  end.

(** The authors of a reply list: [Some] for live accounts. *)
Definition live_authors (names : list string) : list (option string) := map Some names.

(* ------------------------------------------------------------------ *)
(** ** Concrete inputs used by the examples below *)

(** A string of [n] copies of the letter x. *)
Fixpoint pad (n : nat) : string :=
  match n with
  | 0 => EmptyString
  | Datatypes.S n' => String "x" (pad n')
  end.

(** A formatter whose blocks all have ten characters for one-digit ids. *)
Definition fmt_block (r : map_ref) : res string := Ok ("beatmap #" +:+ snd r).

(** Forget the control flag of [thing_loop_ctl]. *)
Definition res_unit (r : res bool) : res unit :=
  match r with Ok _ => Ok tt | Raise e => Raise e end.

(** The ids of a walked prefix, added in order to a LimitedSet. *)
Definition add_ids (l : list thing) (s : LimitedSet.t) : LimitedSet.t :=
  foldl (fun acc t => LimitedSet.add (thing_id t) acc) s l.

Definition bot_account : string := "beatmaplinker".

(** A platform on which the bot has already answered every thread. *)
Definition platform_replied : platform := {|
  get_submission_tree := fun _ _ => Ok [[Some bot_account]];
  submission_comments := fun _ _ => Ok [Some bot_account];
  send_reply := fun _ _ _ => Ok tt |}.

(** A platform on which the bot has answered no thread yet and every post
    goes through. *)
Definition platform_fresh : platform := {|
  get_submission_tree := fun _ _ => Ok [[]];
  submission_comments := fun _ _ => Ok [];
  send_reply := fun _ _ _ => Ok tt |}.

Definition mk_comment (id : string) (author : option string) (body : string) : thing :=
  Comment {| c_id := id; c_author := author; c_body_html := body;
             c_permalink := "/r/osugame/comments/" +:+ id |}.

Definition link_b1 : string :=
  anchor "https://osu.ppy.sh/b/1" "https://osu.ppy.sh/b/1".

Definition state_with (ids : list string) : state :=
  {| seen := {| LimitedSet.capacity := 150; LimitedSet.elems := ids |};
     posted := [] |}.

Definition cfg_format : list map_ref -> res string :=
  format_comment "H" "F" None fmt_example.

(* ================================================================== *)
(** * Examples *)

Example urlparse_ex :
  Url.urlparse "https://osu.ppy.sh/p/beatmap?b=115891&m=0#" =
  Ok {| Url.scheme := "https"; Url.netloc := "osu.ppy.sh"; Url.path := "/p/beatmap";
        Url.params := EmptyString; Url.query := "b=115891&m=0";
        Url.fragment := EmptyString |}.
Proof. reflexivity. Qed.

Example gmp1 : get_map_params unquote_ascii "https://osu.ppy.sh/p/beatmap?b=115891&m=0#"
  = Ok (Some ("b", "115891")).
Proof. reflexivity. Qed.

Example gmp2 : get_map_params unquote_ascii "https://osu.ppy.sh/b/244182" = Ok (Some ("b", "244182")).
Proof. reflexivity. Qed.

Example gmp3 : get_map_params unquote_ascii "https://osu.ppy.sh/p/beatmap?s=295480" = Ok (Some ("s", "295480")).
Proof. reflexivity. Qed.

Example gmp4 : get_map_params unquote_ascii "https://osu.ppy.sh/s/295480" = Ok (Some ("s", "295480")).
Proof. reflexivity. Qed.

Example gmp5 : get_map_params unquote_ascii "https://osu.ppy.sh/u/2" = Raise TypeError.
Proof. reflexivity. Qed.

Example findall_ex :
  findall ("x " +:+ anchor "https://osu.ppy.sh/b/1" "https://osu.ppy.sh/b/1" +:+ " "
           +:+ anchor "https://osu.ppy.sh/s/2" "https://osu.ppy.sh/s/2"
           +:+ anchor "https://osu.ppy.sh/s/3" "other text")
  = ["https://osu.ppy.sh/b/1"; "https://osu.ppy.sh/s/2"].
Proof. reflexivity. Qed.

Example gmh_ex :
  get_maps_from_html unescape_basic unquote_ascii
    (anchor "https://osu.ppy.sh/p/beatmap?s=5&amp;m=0" "https://osu.ppy.sh/p/beatmap?s=5&amp;m=0"
     +:+ anchor "https://osu.ppy.sh/b/x1" "https://osu.ppy.sh/b/x1")
  = Ok [("s", "5")].
Proof. reflexivity. Qed.

Example remove_dups_ex :
  remove_dups [("b", "1"); ("b", "2"); ("b", "1"); ("s", "1")]
  = [("b", "1"); ("b", "2"); ("s", "1")].
Proof. reflexivity. Qed.

Example format_comment_ex :
  format_comment "H" "F" None fmt_example [("b", "1"); ("b", "2"); ("b", "1")]
  = Ok ("H" +:+ line_break +:+ "map 1" +:+ line_break +:+ "map 2"
        +:+ line_break +:+ "F").
Proof. reflexivity. Qed.

(* ================================================================== *)
(** * Lemmas about the string helpers *)

Lemma prefix_app (p s : string) : String.prefix p (p +:+ s) = true.
Proof.
  induction p as [|c p IH]; simpl.
  - destruct s; reflexivity.
  - rewrite IH. destruct (ascii_dec c c); [reflexivity | congruence].
Qed.

Lemma prefix_empty (s : string) : String.prefix EmptyString s = true.
Proof. destruct s; reflexivity. Qed.

Lemma drop_app (p s : string) : Str.drop (String.length p) (p +:+ s) = s.
Proof. induction p; simpl; auto. Qed.

Lemma take_app (p s : string) : Str.take (String.length p) (p +:+ s) = p.
Proof. induction p; simpl; [reflexivity | congruence]. Qed.

Lemma find_app_absent (c : ascii) (p s : string) :
  Str.mem c p = false ->
  Str.find c (p +:+ String c s) = Some (String.length p).
Proof.
  induction p as [|c' p IH]; simpl; intros H.
  - unfold Str.char_eqb. rewrite Ascii.eqb_refl. reflexivity.
  - apply orb_false_iff in H as [H1 H2]. rewrite H1, IH by exact H2.
    reflexivity.
Qed.

Lemma forall_digits_no_amp (d : string) :
  Str.forall_chars Str.is_digit_char d = true -> Str.mem "&" d = false.
Proof.
  induction d as [|c d IH]; [reflexivity|].
  intros H. cbn [Str.forall_chars] in H. apply andb_true_iff in H as [Hc Hd].
  cbn [Str.mem]. rewrite IH by exact Hd. rewrite orb_false_r.
  destruct (Str.char_eqb "&" c) eqn:E; [|reflexivity].
  unfold Str.char_eqb in E. apply Ascii.eqb_eq in E. subst c. discriminate Hc.
Qed.

Lemma isdigit_no_amp (d : string) : Str.isdigit d = true -> Str.mem "&" d = false.
Proof. destruct d; [discriminate|]. apply forall_digits_no_amp. Qed.

(** The shapes /b/... and /s/...: the id is the text after the prefix, cut
    at its first ampersand. *)
Lemma get_map_params_parsed_prefix (unquote : string -> string)
    (parsed : Url.parse_result) (t : ascii) (d rest : string) :
  (t = "b" \/ t = "s")%char ->
  Url.path parsed = String "/" (String t (String "/" (d +:+ String "&" rest))) ->
  Str.isdigit d = true ->
  get_map_params_parsed unquote parsed = Ok (Some (String t EmptyString, d)).
Proof.
  intros Ht Hp Hd. unfold get_map_params_parsed. rewrite Hp.
  pose proof (find_app_absent "&" d rest (isdigit_no_amp d Hd)) as Hf.
  destruct Ht as [-> | ->]; cbn -[Str.find Str.take Str.isdigit];
    rewrite prefix_empty; cbn -[Str.find Str.take Str.isdigit];
    unfold before_amp; rewrite Hf, take_app, Hd; reflexivity.
Qed.

(** Every list of values in the dict built by parse_qs is non-empty. *)
Lemma parse_qs_values_nonempty (unquote : string -> string) (qs k : string)
    (vs : list string) :
  parse_qs unquote qs !! k = Some vs -> vs <> [].
Proof.
  unfold parse_qs.
  assert (Hgen : forall (l : list (string * string)) (m : gmap string (list string)),
    (forall k' vs', m !! k' = Some vs' -> vs' <> []) ->
    forall k' vs',
    foldl (fun (parsed : gmap string (list string)) '(name, value) =>
             match parsed !! name with
             | Some vs => <[name := vs ++ [value]]> parsed
             | None => <[name := [value]]> parsed
             end) m l !! k' = Some vs' -> vs' <> []).
  { induction l as [|[n v] l IH]; simpl; intros m Hm; [exact Hm|].
    apply IH. intros k' vs'.
    destruct (decide (k' = n)) as [->|Hne].
    - destruct (m !! n) as [vs0|]; rewrite lookup_insert_eq; intros [= <-];
        [destruct vs0|]; simpl; congruence.
    - destruct (m !! n); rewrite lookup_insert_ne by congruence; apply Hm. }
  apply Hgen. intros k' vs'. rewrite lookup_empty. discriminate.
Qed.

Lemma first_value_nonempty (vs : list string) :
  vs <> [] -> exists v, head vs = Some v /\ first_value vs = Ok v.
Proof. destruct vs as [|v vs]; [congruence|]. intros _. exists v. split; reflexivity. Qed.

(* ================================================================== *)
(** * The reference extractor *)

(** C1 (code_bug): a URL of an unrecognised shape, such as a user page,
    is not dropped: get_map_params evaluates ["&" in map_id] while
    [map_id] is still None and raises TypeError, which propagates out of
    get_maps_from_html.  Stated for get_map_params under every
    percent-decoder and for the extractor on the anchor of that URL. *)
Theorem get_map_params_unrecognised_shape_raises :
  (forall unquote : string -> string,
     get_map_params unquote "https://osu.ppy.sh/u/123" = Raise TypeError) /\
  get_maps_from_html unescape_basic unquote_ascii
    (anchor "https://osu.ppy.sh/u/123" "https://osu.ppy.sh/u/123")
  = Raise TypeError.
Proof. split; [intros unquote|]; reflexivity. Qed.

(** C10: a path /b/ or /s/ followed by digits, an ampersand and any text
    yields the reference of that kind with the digits before the
    ampersand. *)
Theorem get_map_params_truncates_at_ampersand (unquote : string -> string)
    (url : string) (parsed : Url.parse_result) (t : ascii) (d rest : string) :
  (t = "b" \/ t = "s")%char ->
  Url.urlparse url = Ok parsed ->
  Url.path parsed = String "/" (String t (String "/" (d +:+ String "&" rest))) ->
  Str.isdigit d = true ->
  get_map_params unquote url = Ok (Some (String t EmptyString, d)).
Proof.
  intros Ht Hu Hp Hd. unfold get_map_params. rewrite Hu.
  exact (get_map_params_parsed_prefix unquote parsed t d rest Ht Hp Hd).
Qed.

Lemma get_map_params_truncates_at_ampersand_witness :
  get_map_params unquote_ascii "https://osu.ppy.sh/b/123&junk" = Ok (Some ("b", "123")).
Proof.
  apply (get_map_params_truncates_at_ampersand unquote_ascii
           "https://osu.ppy.sh/b/123&junk"
           {| Url.scheme := "https"; Url.netloc := "osu.ppy.sh";
              Url.path := "/b/123&junk"; Url.params := EmptyString;
              Url.query := EmptyString; Url.fragment := EmptyString |}
           "b" "123" "junk").
  - left. reflexivity.
  - reflexivity.
  - reflexivity.
  - reflexivity.
Defined.

(** C7 (counterexample): b is present, yet the result is not an item
    reference: b's value is not numeric and the numeric s is ignored. *)
Lemma get_map_params_b_present_not_item :
  get_map_params unquote_ascii "https://osu.ppy.sh/p/beatmap?b=abc&s=1" = Ok None.
Proof. reflexivity. Qed.

(** C7 (amended): for the path /p/beatmap, b is looked up before s.  If b
    is present, s is never consulted: the result is the item (b) with b's
    first value cut at its first ampersand when that is all digits, and
    False otherwise.  If b is absent and s present, the result is built
    the same way from s's first value as a collection (s).  A collection
    result therefore only arises when b is absent and s present. *)
Theorem get_map_params_b_before_s (unquote : string -> string)
    (parsed : Url.parse_result) :
  Url.path parsed = "/p/beatmap" ->
  let query := parse_qs unquote (Url.query parsed) in
  (forall vs, query !! "b" = Some vs ->
     exists v, head vs = Some v /\
       get_map_params_parsed unquote parsed =
         (if Str.isdigit (before_amp v) then Ok (Some ("b", before_amp v))
          else Ok None)) /\
  (query !! "b" = None -> forall vs, query !! "s" = Some vs ->
     exists v, head vs = Some v /\
       get_map_params_parsed unquote parsed =
         (if Str.isdigit (before_amp v) then Ok (Some ("s", before_amp v))
          else Ok None)) /\
  (forall i, get_map_params_parsed unquote parsed = Ok (Some ("s", i)) ->
     query !! "b" = None /\ is_Some (query !! "s")).
Proof.
  intros Hp query.
  assert (Hne : forall k vs, query !! k = Some vs -> vs <> [])
    by (intros k vs; apply parse_qs_values_nonempty).
  assert (Hgm : get_map_params_parsed unquote parsed =
    '(map_type, map_id) ←
       (match query !! "b" with
        | Some vs => v ← first_value vs; Ok (Some "b", Some v)
        | None =>
            match query !! "s" with
            | Some vs => v ← first_value vs; Ok (Some "s", Some v)
            | None => Ok (None, None)
            end
        end : res (option string * option string));
     match map_id with
     | None => Raise TypeError
     | Some map_id =>
         match map_type with
         | Some (String _ _ as t) =>
             if Str.isdigit (before_amp map_id) then Ok (Some (t, before_amp map_id))
             else Ok None
         | _ => Ok None
         end
     end).
  { unfold get_map_params_parsed. rewrite Hp. reflexivity. }
  rewrite Hgm. clear Hgm.
  split; [|split].
  - intros vs Hb. rewrite Hb.
    destruct (first_value_nonempty vs (Hne _ _ Hb)) as (v & Hh & Hf).
    exists v. split; [exact Hh|]. rewrite Hf. reflexivity.
  - intros Hb vs Hs. rewrite Hb, Hs.
    destruct (first_value_nonempty vs (Hne _ _ Hs)) as (v & Hh & Hf).
    exists v. split; [exact Hh|]. rewrite Hf. reflexivity.
  - intros i. destruct (query !! "b") as [vs|] eqn:Hb.
    + destruct (first_value_nonempty vs (Hne _ _ Hb)) as (v & _ & Hf).
      rewrite Hf. cbn. destruct (Str.isdigit (before_amp v)); discriminate.
    + destruct (query !! "s") as [vs|] eqn:Hs.
      * intros _. split; [reflexivity | eexists; reflexivity].
      * discriminate.
Qed.

Lemma get_map_params_b_before_s_witness :
  Url.path {| Url.scheme := "https"; Url.netloc := "osu.ppy.sh";
              Url.path := "/p/beatmap"; Url.params := EmptyString;
              Url.query := "s=7&b=12"; Url.fragment := EmptyString |} = "/p/beatmap" /\
  get_map_params_parsed unquote_ascii
    {| Url.scheme := "https"; Url.netloc := "osu.ppy.sh";
       Url.path := "/p/beatmap"; Url.params := EmptyString;
       Url.query := "s=7&b=12"; Url.fragment := EmptyString |}
  = Ok (Some ("b", "12")).
Proof.
  split; [reflexivity|].
  destruct (get_map_params_b_before_s unquote_ascii
    {| Url.scheme := "https"; Url.netloc := "osu.ppy.sh";
       Url.path := "/p/beatmap"; Url.params := EmptyString;
       Url.query := "s=7&b=12"; Url.fragment := EmptyString |} eq_refl)
    as [Hb _].
  destruct (Hb ["12"] eq_refl) as (v & Hv & ->).
  injection Hv as <-. reflexivity.
Defined.

(* ------------------------------------------------------------------ *)
(** ** Lemmas on string concatenation and the regex *)

Lemma app_String (c : ascii) (s t : string) : String c s +:+ t = String c (s +:+ t).
Proof. reflexivity. Qed.

Lemma app_Empty (t : string) : EmptyString +:+ t = t.
Proof. reflexivity. Qed.

Lemma app_assoc_str (a b c : string) : (a +:+ b) +:+ c = a +:+ (b +:+ c).
Proof. induction a; [reflexivity|]. rewrite !app_String. congruence. Qed.

Ltac norm_str := repeat rewrite ?app_assoc_str, ?app_String, ?app_Empty.

Lemma prefix_true_app (p s : string) :
  String.prefix p s = true -> s = p +:+ Str.drop (String.length p) s.
Proof.
  revert s. induction p as [|c p IH]; intros s H; [reflexivity|].
  destruct s as [|c' s]; [discriminate|]. simpl in H.
  destruct (ascii_dec c c') as [<-|]; [|discriminate].
  rewrite app_String. f_equal. apply IH, H.
Qed.

Lemma strip_prefix_app (p s r : string) : strip_prefix p s = Some r -> s = p +:+ r.
Proof.
  unfold strip_prefix. destruct (String.prefix p s) eqn:E; [|discriminate].
  intros [= <-]. apply prefix_true_app, E.
Qed.

Lemma take_drop_str (i : nat) (s : string) : s = Str.take i s +:+ Str.drop i s.
Proof.
  revert s. induction i as [|i IH]; intros s; [reflexivity|].
  destruct s as [|c s]; [reflexivity|]. simpl. rewrite app_String. f_equal. apply IH.
Qed.

Lemma find_take_absent (c : ascii) (s : string) (i : nat) :
  Str.find c s = Some i -> Str.mem c (Str.take i s) = false.
Proof.
  revert i. induction s as [|c' s IH]; intros i H; [discriminate|].
  simpl in H. destruct (Str.char_eqb c c') eqn:E.
  - injection H as <-. reflexivity.
  - destruct (Str.find c s) as [j|] eqn:Hj; [|discriminate].
    injection H as <-. simpl. rewrite E, (IH j eq_refl). reflexivity.
Qed.

Lemma url_regex_tail (scheme s2 u r : string) :
  (s3 ← strip_prefix regex_host s2;
   i ← Str.find dq s3;
   match i with
   | O => None
   | S _ =>
       let url := scheme +:+ regex_host +:+ Str.take i s3 in
       s4 ← strip_prefix (String dq ">") (Str.drop i s3);
       s5 ← strip_prefix url s4;
       s6 ← strip_prefix "</a>" s5;
       Some (url, s6)
   end) = Some (u, r) ->
  exists rest, rest <> EmptyString /\ Str.mem dq rest = false /\
    u = scheme +:+ regex_host +:+ rest /\
    s2 = regex_host +:+ rest +:+ String dq (">" +:+ u +:+ "</a>" +:+ r).
Proof.
  destruct (strip_prefix regex_host s2) as [s3|] eqn:H3; [|discriminate].
  cbn [mbind option_bind].
  destruct (Str.find dq s3) as [i|] eqn:Hi; [|discriminate].
  cbn [mbind option_bind].
  destruct i as [|i]; [discriminate|].
  destruct (strip_prefix (String dq ">") (Str.drop (S i) s3)) as [s4|] eqn:H4;
    [|discriminate]. cbn [mbind option_bind].
  destruct (strip_prefix _ s4) as [s5|] eqn:H5; [|discriminate].
  cbn [mbind option_bind].
  destruct (strip_prefix "</a>" s5) as [s6|] eqn:H6; [|discriminate].
  cbn [mbind option_bind]. intros [= <- <-].
  exists (Str.take (S i) s3). split; [|split; [|split]].
  - destruct s3; [discriminate|]. simpl. discriminate.
  - apply find_take_absent, Hi.
  - reflexivity.
  - apply strip_prefix_app in H3, H4, H5, H6.
    rewrite H3. f_equal.
    rewrite (take_drop_str (S i) s3) at 1. f_equal.
    rewrite H4, H5, H6. norm_str. reflexivity.
Qed.

Lemma url_regex_match_spec (s u r : string) :
  url_regex_match s = Some (u, r) -> s = anchor u u +:+ r /\ osu_url u.
Proof.
  unfold url_regex_match.
  destruct (strip_prefix _ s) as [s1|] eqn:H1; [|discriminate]. cbn [mbind option_bind].
  apply strip_prefix_app in H1. subst s.
  destruct (strip_prefix "s" s1) as [s2|] eqn:H2; intros H;
    apply url_regex_tail in H as (rest & Hne & Hdq & Hu & Hs2).
  - apply strip_prefix_app in H2. subst s1 s2. split.
    + unfold anchor. subst u. norm_str. reflexivity.
    + exists "https", rest. auto.
  - subst s1. split.
    + unfold anchor. subst u. norm_str. reflexivity.
    + exists "http", rest. auto.
Qed.

Lemma findall_from_spec (s : string) (k : nat) (u : string) :
  u ∈ findall_from k s ->
  exists pre post, s = pre +:+ anchor u u +:+ post /\ osu_url u.
Proof.
  revert k. induction s as [|c s IH]; intros k Hin; simpl in Hin.
  - apply elem_of_nil in Hin. contradiction.
  - destruct k as [|k].
    + destruct (url_regex_match (String c s)) as [[u' r]|] eqn:E.
      * apply elem_of_cons in Hin as [->|Hin].
        -- apply url_regex_match_spec in E as [Hs Hu].
           exists EmptyString, r. split; [exact Hs | exact Hu].
        -- destruct (IH _ Hin) as (pre & post & Hs & Hu).
           exists (String c pre), post. rewrite Hs. split; [reflexivity | exact Hu].
      * destruct (IH _ Hin) as (pre & post & Hs & Hu).
        exists (String c pre), post. rewrite Hs. split; [reflexivity | exact Hu].
    + destruct (IH _ Hin) as (pre & post & Hs & Hu).
      exists (String c pre), post. rewrite Hs. split; [reflexivity | exact Hu].
Qed.

Lemma mapM_res_ok {A B} (f : A -> res B) (l : list A) (rs : list B) :
  mapM f l = Ok rs -> Forall2 (fun x y => f x = Ok y) l rs.
Proof.
  revert rs. induction l as [|x l IH]; intros rs H; simpl in H.
  - injection H as <-. constructor.
  - destruct (f x) as [y|e] eqn:Ef; [|discriminate]. cbn in H.
    destruct (mapM f l) as [ys|e] eqn:El; [|discriminate]. cbn in H.
    injection H as <-. constructor; [exact Ef | apply IH; reflexivity].
Qed.

(** C8 (counterexample): an anchor on the http scheme is matched too. *)
Lemma get_maps_from_html_http_anchor :
  get_maps_from_html unescape_basic unquote_ascii
    (anchor "http://osu.ppy.sh/b/1" "http://osu.ppy.sh/b/1") = Ok [("b", "1")].
Proof. reflexivity. Qed.

(** C8 (amended): every reference the extractor returns comes from an
    anchor [<a href=Q u Q>u</a>] of the input (Q the double quote) whose
    anchor text equals its href [u], where [u] is http:// or https://,
    then the host osu.ppy.sh and a slash, then at least one character
    other than Q; the reference is get_map_params of the unescaped [u].
    So an anchor on any other host or scheme yields no reference. *)
Theorem get_maps_from_html_trusted_anchors (unescape unquote : string -> string)
    (html : string) (refs : list map_ref) :
  get_maps_from_html unescape unquote html = Ok refs ->
  forall ref, ref ∈ refs ->
  exists u pre post,
    html = pre +:+ anchor u u +:+ post /\ osu_url u /\
    get_map_params unquote (unescape u) = Ok (Some ref).
Proof.
  unfold get_maps_from_html. intros H ref Hin.
  destruct (mapM _ (findall html)) as [rs|e] eqn:Hm; [|discriminate].
  cbn in H. injection H as <-.
  apply list_elem_of_omap in Hin as (o & Ho & Hid). simpl in Hid. subst o.
  apply mapM_res_ok in Hm.
  apply list_elem_of_lookup in Ho as (j & Hj).
  destruct (Forall2_lookup_r _ _ _ j _ Hm Hj) as (z & Hz & Hf).
  assert (Hzin : z ∈ findall html) by (eapply list_elem_of_lookup; eauto).
  destruct (findall_from_spec html 0 z Hzin) as (pre & post & Hs & Hu).
  exists z, pre, post. auto.
Qed.

Lemma get_maps_from_html_trusted_anchors_witness :
  exists u pre post,
    anchor "https://osu.ppy.sh/s/42" "https://osu.ppy.sh/s/42"
      = pre +:+ anchor u u +:+ post /\ osu_url u /\
    get_map_params unquote_ascii (unescape_basic u) = Ok (Some ("s", "42")).
Proof.
  apply (get_maps_from_html_trusted_anchors unescape_basic unquote_ascii
           (anchor "https://osu.ppy.sh/s/42" "https://osu.ppy.sh/s/42")
           [("s", "42")]).
  - reflexivity.
  - constructor.
Defined.

(* ================================================================== *)
(** * The comment composer *)

Lemma remove_dups_from_elem (seen : gset map_ref) (l : list map_ref) (x : map_ref) :
  x ∈ remove_dups_from seen l <-> x ∈ l /\ x ∉ seen.
Proof.
  revert seen. induction l as [|y l IH]; intros seen; simpl.
  - split; [intros H; apply elem_of_nil in H; contradiction|].
    intros [H _]. apply elem_of_nil in H. contradiction.
  - destruct (decide (y ∈ seen)) as [Hy|Hy].
    + rewrite IH, elem_of_cons. split; [tauto|].
      intros [[->|Hx] Hn]; [contradiction | auto].
    + rewrite elem_of_cons, IH, elem_of_cons, not_elem_of_union, elem_of_singleton.
      destruct (decide (x = y)) as [->|Hne]; tauto.
Qed.

Lemma remove_dups_from_nodup (seen : gset map_ref) (l : list map_ref) :
  NoDup (remove_dups_from seen l).
Proof.
  revert seen. induction l as [|y l IH]; intros seen; simpl; [constructor|].
  destruct (decide (y ∈ seen)); [apply IH|].
  constructor; [|apply IH].
  rewrite remove_dups_from_elem. set_solver.
Qed.

Lemma remove_dups_from_snoc (seen : gset map_ref) (l : list map_ref) (x : map_ref) :
  remove_dups_from seen (l ++ [x]) =
  remove_dups_from seen l ++ (if decide (x ∈ seen \/ x ∈ l) then [] else [x]).
Proof.
  revert seen. induction l as [|y l IH]; intros seen; cbn [app remove_dups_from].
  - destruct (decide (x ∈ seen)), (decide (x ∈ seen \/ x ∈ [])); simpl;
      try reflexivity; exfalso; set_solver.
  - destruct (decide (y ∈ seen)) as [Hy|Hy].
    + rewrite IH. f_equal.
      destruct (decide (x ∈ seen \/ x ∈ l)), (decide (x ∈ seen \/ x ∈ y :: l));
        try reflexivity; exfalso; set_solver.
    + rewrite IH. simpl. f_equal. f_equal.
      destruct (decide (x ∈ {[y]} ∪ seen \/ x ∈ l)), (decide (x ∈ seen \/ x ∈ y :: l));
        try reflexivity; exfalso; set_solver.
Qed.

Lemma remove_dups_from_id (seen : gset map_ref) (l : list map_ref) :
  NoDup l -> (forall x, x ∈ l -> x ∉ seen) -> remove_dups_from seen l = l.
Proof.
  revert seen. induction l as [|y l IH]; intros seen Hnd Hs; [reflexivity|].
  apply NoDup_cons in Hnd as [Hy Hnd]. simpl.
  destruct (decide (y ∈ seen)) as [Hin|_].
  - exfalso. exact (Hs y (list_elem_of_here y l) Hin).
  - f_equal. apply IH; [exact Hnd|].
    intros x Hx. rewrite not_elem_of_union, elem_of_singleton. split.
    + intros ->. contradiction.
    + apply Hs, list_elem_of_further, Hx.
Qed.

Lemma remove_dups_idem (l : list map_ref) : remove_dups (remove_dups l) = remove_dups l.
Proof.
  apply remove_dups_from_id; [apply remove_dups_from_nodup|].
  intros x _. apply not_elem_of_empty.
Qed.

Lemma length_app_str (a b : string) :
  String.length (a +:+ b) = String.length a + String.length b.
Proof.
  induction a as [|c a IH]; [reflexivity|].
  rewrite app_String. cbn [String.length]. rewrite IH. reflexivity.
Qed.

Lemma app_Empty_r (a : string) : a +:+ EmptyString = a.
Proof. induction a; [reflexivity|]. rewrite app_String. congruence. Qed.

(** The loop of format_comment once the body is non-empty: with blocks of
    size [B], it appends [sep] and a block while [base_len + len(body) +
    len(sep) + B] stays within the limit. *)
Lemma compose_body_nonempty (header footer : string) (sep_cfg : option string)
    (fmt : map_ref -> res string) (blk : map_ref -> string) (B : nat)
    (maps : list map_ref) (body : string) :
  0 < B ->
  body <> EmptyString ->
  (forall r, r ∈ maps -> fmt r = Ok (blk r) /\ String.length (blk r) = B) ->
  compose_body header footer sep_cfg fmt body maps =
  Ok (body +:+ foldr (fun y acc => sep sep_cfg +:+ y +:+ acc) EmptyString
        (map blk (take (Nat.min (length maps)
                          ((char_limit - base_len header footer - String.length body)
                           / (B + String.length (sep sep_cfg)))) maps))).
Proof.
  intros HB. revert body. induction maps as [|r rest IH]; intros body Hne Hblk.
  - simpl. rewrite app_Empty_r. reflexivity.
  - destruct (Hblk r (list_elem_of_here r rest)) as [Hf Hl].
    cbn [compose_body]. rewrite Hf. cbn [mbind res_bind].
    set (sl := String.length (sep sep_cfg)).
    set (H := base_len header footer).
    destruct (char_limit <? H + String.length body + sl + String.length (blk r))
      eqn:E.
    + apply Nat.ltb_lt in E.
      rewrite (Nat.div_small (char_limit - H - String.length body)) by lia.
      rewrite Nat.min_0_r. simpl. rewrite app_Empty_r. reflexivity.
    + apply Nat.ltb_ge in E.
      destruct body as [|c body']; [congruence|].
      set (lb := String.length (String c body')) in *.
      rewrite IH.
      * rewrite !length_app_str. fold sl lb. rewrite Hl.
        assert (Hq : (char_limit - H - lb) / (B + sl) =
                     Datatypes.S ((char_limit - H - (lb + sl + B)) / (B + sl))).
        { replace (char_limit - H - lb)
            with (1 * (B + sl) + (char_limit - H - (lb + sl + B))) by lia.
          rewrite Nat.div_add_l by lia. reflexivity. }
        rewrite Hq. cbn [length Nat.min take map foldr].
        norm_str. reflexivity.
      * rewrite app_assoc_str, app_String. discriminate.
      * intros r' Hr'. apply Hblk. apply list_elem_of_further. exact Hr'.
Qed.

(** format_comment with blocks of size [B], provided the first block passes
    the check [base_len + len(sep) + B <= 10000]. *)
Lemma format_comment_blocks (header footer : string) (sep_cfg : option string)
    (fmt : map_ref -> res string) (blk : map_ref -> string) (B : nat)
    (maps : list map_ref) :
  0 < B ->
  (forall r, r ∈ maps -> fmt r = Ok (blk r) /\ String.length (blk r) = B) ->
  base_len header footer + String.length (sep sep_cfg) + B <= char_limit ->
  format_comment header footer sep_cfg fmt maps =
  Ok (header +:+ line_break +:+
      join (sep sep_cfg)
        (map blk (take (Nat.min (length (remove_dups maps))
                          ((char_limit - base_len header footer + String.length (sep sep_cfg))
                           / (B + String.length (sep sep_cfg))))
                       (remove_dups maps)))
      +:+ line_break +:+ footer).
Proof.
  intros HB Hblk Hfirst. unfold format_comment.
  assert (Hsub : forall r, r ∈ remove_dups maps -> r ∈ maps)
    by (intros r Hr; apply remove_dups_from_elem in Hr; tauto).
  destruct (remove_dups maps) as [|r0 rest] eqn:Erd; [reflexivity|].
  destruct (Hblk r0 (Hsub r0 (list_elem_of_here r0 rest))) as [Hf Hl].
  cbn [compose_body]. rewrite Hf. cbn [mbind res_bind].
  set (sl := String.length (sep sep_cfg)) in *.
  set (H := base_len header footer) in *.
  replace (char_limit <? H + String.length EmptyString + sl + String.length (blk r0))
    with false by (symmetry; apply Nat.ltb_ge; simpl; lia).
  rewrite app_Empty.
  rewrite (compose_body_nonempty header footer sep_cfg fmt blk B rest (blk r0) HB).
  - cbn [mbind res_bind]. fold H sl. rewrite Hl.
    assert (Hq : (char_limit - H + sl) / (B + sl) =
                 Datatypes.S ((char_limit - H - B) / (B + sl))).
    { replace (char_limit - H + sl) with (1 * (B + sl) + (char_limit - H - B)) by lia.
      rewrite Nat.div_add_l by lia. reflexivity. }
    rewrite Hq. reflexivity.
  - intros E. apply (f_equal String.length) in E. simpl in E. lia.
  - intros r Hr. apply Hblk, Hsub. apply list_elem_of_further. exact Hr.
Qed.

Lemma join_length (sep : string) (l : list string) (B : nat) :
  (forall x, x ∈ l -> String.length x = B) ->
  String.length (join sep l) = length l * B + (length l - 1) * String.length sep.
Proof.
  destruct l as [|x xs]; intros Hl; [reflexivity|].
  cbn [join length]. rewrite length_app_str, (Hl x (list_elem_of_here x xs)).
  assert (Hxs : forall y, y ∈ xs -> String.length y = B)
    by (intros y Hy; apply Hl, list_elem_of_further, Hy).
  clear Hl. induction xs as [|y ys IH]; cbn [foldr length String.length]; [lia|].
  rewrite !length_app_str, (Hxs y (list_elem_of_here y ys)).
  rewrite IH by (intros z Hz; apply Hxs, list_elem_of_further, Hz). nia.
Qed.

Lemma block_count_bounds (L H sl B N : nat) :
  0 < B -> H + sl + B <= L ->
  let k := Nat.min N ((L - H + sl) / (B + sl)) in
  H + k * B + (k - 1) * sl <= L /\ (k < N -> L < H + (k + 1) * B + k * sl).
Proof.
  intros HB Hfirst k.
  set (q := (L - H + sl) / (B + sl)) in *.
  assert (Hq1 : (B + sl) * q <= L - H + sl) by apply Nat.Div0.mul_div_le.
  assert (Hq2 : L - H + sl < (B + sl) * (q + 1)).
  { pose proof (Nat.div_mod_eq (L - H + sl) (B + sl)) as Hd.
    pose proof (Nat.mod_upper_bound (L - H + sl) (B + sl) ltac:(lia)). fold q in Hd. nia. }
  assert (Hk : k <= q) by (unfold k; lia).
  split.
  - destruct k as [|k']; [lia|]. nia.
  - intros HkN. assert (k = q) by (unfold k in *; lia). subst k. nia.
Qed.

(** C5 (counterexample): with a 9974-character header, an empty footer, the
    default separator (two characters) and ten-character blocks, the
    overhead is 9978 and floor((10000 - 9978) / (10 + 2)) = 1, yet
    format_comment includes two blocks: the second one brings the comment to
    exactly 10000 characters. *)
Lemma format_comment_block_count_exceeds_floor :
  (char_limit - base_len (pad 9974) EmptyString)
    / (10 + String.length (sep None)) = 1 /\
  format_comment (pad 9974) EmptyString None fmt_block
    [("b", "1"); ("b", "2"); ("b", "3")]
  = Ok (pad 9974 +:+ line_break +:+ "beatmap #1" +:+ line_break
        +:+ "beatmap #2" +:+ line_break +:+ EmptyString).
Proof. split; vm_compute; reflexivity. Qed.

(** C5 (amended): let H be base_len (header, footer and two line breaks),
    sl the separator length and every block B > 0 characters long.  The
    check for the first block counts one separator: when
    H + sl + B > 10000 no block is kept at all and the body is empty.
    Otherwise format_comment joins, in order, the first k distinct
    references' blocks, where
    k = min(#distinct refs, floor((10000 - H + sl) / (B + sl))); the comment
    is H + k*B + (k-1)*sl long, which is within the ceiling (an exact fit is
    kept), and when references are dropped one more block would exceed it. *)
Theorem format_comment_length_ceiling (header footer : string)
    (sep_cfg : option string) (fmt : map_ref -> res string)
    (blk : map_ref -> string) (B : nat) (maps : list map_ref) :
  0 < B ->
  (forall r, r ∈ maps -> fmt r = Ok (blk r) /\ String.length (blk r) = B) ->
  let H := base_len header footer in
  let sl := String.length (sep sep_cfg) in
  let rd := remove_dups maps in
  let k := Nat.min (length rd) ((char_limit - H + sl) / (B + sl)) in
  let body := join (sep sep_cfg) (map blk (take k rd)) in
  (char_limit < H + sl + B ->
   format_comment header footer sep_cfg fmt maps
     = Ok (header +:+ line_break +:+ EmptyString +:+ line_break +:+ footer)) /\
  (H + sl + B <= char_limit ->
   format_comment header footer sep_cfg fmt maps
     = Ok (header +:+ line_break +:+ body +:+ line_break +:+ footer) /\
   String.length (header +:+ line_break +:+ body +:+ line_break +:+ footer)
     = H + k * B + (k - 1) * sl /\
   H + k * B + (k - 1) * sl <= char_limit /\
   (k < length rd -> char_limit < H + (k + 1) * B + k * sl)).
Proof.
  intros HB Hblk H sl rd k body. split.
  - intros Hover. unfold format_comment.
    assert (Hsub : forall r, r ∈ remove_dups maps -> r ∈ maps)
      by (intros r Hr; apply remove_dups_from_elem in Hr; tauto).
    destruct (remove_dups maps) as [|r0 rest] eqn:Erd; [reflexivity|].
    destruct (Hblk r0 (Hsub r0 (list_elem_of_here r0 rest))) as [Hf Hl].
    cbn [compose_body]. rewrite Hf. cbn [mbind res_bind].
    replace (char_limit <? base_len header footer + String.length EmptyString
                           + String.length (sep sep_cfg) + String.length (blk r0))
      with true by (symmetry; apply Nat.ltb_lt; simpl; fold H sl; lia).
    reflexivity.
  - intros Hfirst.
    assert (Hlen : length (map blk (take k rd)) = k).
    { rewrite length_map, length_take. unfold k. lia. }
    pose proof (block_count_bounds char_limit H sl B (length rd) HB Hfirst) as Hb.
    split; [|split].
    + apply format_comment_blocks; assumption.
    + rewrite !length_app_str.
      unfold body. rewrite (join_length (sep sep_cfg) _ B), Hlen.
      * unfold H, base_len. fold sl. lia.
      * intros x Hx. apply list_elem_of_In, in_map_iff in Hx as (r & <- & Hr).
        apply list_elem_of_In, subseteq_take in Hr. apply remove_dups_from_elem in Hr.
        apply Hblk. tauto.
    + exact Hb.
Qed.

(** Two instances with ten-character blocks and the default separator: a
    9986-character header leaves no room for a block; a 9974-character
    header keeps two of the three references, and the comment is exactly
    10000 characters long. *)
Lemma format_comment_length_ceiling_witness :
  format_comment (pad 9986) EmptyString None fmt_block
    [("b", "1"); ("b", "2"); ("b", "3")]
  = Ok (pad 9986 +:+ line_break +:+ EmptyString +:+ line_break +:+ EmptyString) /\
  (let H := base_len (pad 9974) EmptyString in
   let sl := String.length (sep None) in
   let rd := remove_dups [("b", "1"); ("b", "2"); ("b", "3")] in
   let k := Nat.min (length rd) ((char_limit - H + sl) / (10 + sl)) in
   let body := join (sep None) (map (fun r => "beatmap #" +:+ snd r) (take k rd)) in
   format_comment (pad 9974) EmptyString None fmt_block
     [("b", "1"); ("b", "2"); ("b", "3")]
     = Ok (pad 9974 +:+ line_break +:+ body +:+ line_break +:+ EmptyString) /\
   String.length (pad 9974 +:+ line_break +:+ body +:+ line_break +:+ EmptyString)
     = H + k * 10 + (k - 1) * sl /\
   H + k * 10 + (k - 1) * sl <= char_limit /\
   (k < length rd -> char_limit < H + (k + 1) * 10 + k * sl)) /\
  Nat.min 3 ((char_limit - base_len (pad 9974) EmptyString + 2) / 12) = 2 /\
  base_len (pad 9974) EmptyString + 2 * 10 + 1 * 2 = char_limit.
Proof.
  assert (Hblk : forall r, r ∈ [("b", "1"); ("b", "2"); ("b", "3")] ->
            fmt_block r = Ok ("beatmap #" +:+ snd r) /\
            String.length ("beatmap #" +:+ snd r) = 10).
  { intros r Hr. rewrite !elem_of_cons, elem_of_nil in Hr.
    destruct Hr as [->|[->|[->|[]]]]; split; reflexivity. }
  split; [|split; [|split]].
  - apply (format_comment_length_ceiling (pad 9986) EmptyString None fmt_block
             (fun r => "beatmap #" +:+ snd r) 10); [lia|exact Hblk|].
    apply Nat.ltb_lt. vm_compute. reflexivity.
  - apply (format_comment_length_ceiling (pad 9974) EmptyString None fmt_block
             (fun r => "beatmap #" +:+ snd r) 10); [lia|exact Hblk|].
    apply Nat.leb_le. vm_compute. reflexivity.
  - vm_compute. reflexivity.
  - vm_compute. reflexivity.
Defined.

(** C6: format_comment walks remove_dups(maps), which keeps exactly the
    elements of its input, without repetition, each at its first
    occurrence (appending an element already present changes nothing,
    appending a new one puts it last); in particular for
    [(b,1); (b,2); (b,1)] the body is block 1, the separator, block 2. *)
Theorem format_comment_dedup_stable :
  (forall (l : list map_ref) x, x ∈ remove_dups l <-> x ∈ l) /\
  (forall l : list map_ref, NoDup (remove_dups l)) /\
  (forall (l : list map_ref) x,
     remove_dups (l ++ [x]) = remove_dups l ++ (if decide (x ∈ l) then [] else [x])) /\
  (forall header footer sep_cfg fmt maps,
     format_comment header footer sep_cfg fmt maps
     = format_comment header footer sep_cfg fmt (remove_dups maps)) /\
  (forall header footer sep_cfg fmt b1 b2,
     fmt ("b", "1") = Ok b1 -> fmt ("b", "2") = Ok b2 -> b1 <> EmptyString ->
     base_len header footer + String.length b1 + String.length (sep sep_cfg)
       + String.length b2 <= char_limit ->
     format_comment header footer sep_cfg fmt [("b", "1"); ("b", "2"); ("b", "1")]
     = Ok (header +:+ line_break +:+ b1 +:+ sep sep_cfg +:+ b2
           +:+ line_break +:+ footer)).
Proof.
  split; [|split; [|split; [|split]]].
  - intros l x. unfold remove_dups. rewrite remove_dups_from_elem.
    pose proof (not_elem_of_empty (C := gset map_ref) x). tauto.
  - intros l. apply remove_dups_from_nodup.
  - intros l x. unfold remove_dups. rewrite remove_dups_from_snoc.
    pose proof (not_elem_of_empty (C := gset map_ref) x).
    destruct (decide (x ∈ (∅ : gset map_ref) \/ x ∈ l));
      destruct (decide (x ∈ l)); try reflexivity; exfalso; tauto.
  - intros header footer sep_cfg fmt maps. unfold format_comment.
    rewrite remove_dups_idem. reflexivity.
  - intros header footer sep_cfg fmt b1 b2 H1 H2 Hne Hfit.
    unfold format_comment.
    replace (remove_dups [("b", "1"); ("b", "2"); ("b", "1")])
      with [("b", "1"); ("b", "2")] by reflexivity.
    cbn [compose_body]. rewrite H1. cbn [mbind res_bind].
    replace (char_limit <? base_len header footer + String.length EmptyString
                           + String.length (sep sep_cfg) + String.length b1)
      with false by (symmetry; apply Nat.ltb_ge; simpl; lia).
    rewrite app_Empty, H2. cbn [mbind res_bind].
    destruct b1 as [|c b1']; [congruence|].
    replace (char_limit <? base_len header footer + String.length (String c b1')
                           + String.length (sep sep_cfg) + String.length b2)
      with false by (symmetry; apply Nat.ltb_ge; lia).
    cbn [compose_body mbind res_bind]. norm_str. reflexivity.
Qed.

Lemma format_comment_dedup_stable_witness :
  format_comment "H" "F" None fmt_example [("b", "1"); ("b", "2"); ("b", "1")]
  = Ok ("H" +:+ line_break +:+ "map 1" +:+ sep None +:+ "map 2"
        +:+ line_break +:+ "F").
Proof.
  apply (proj2 (proj2 (proj2 (proj2 format_comment_dedup_stable)))).
  - reflexivity.
  - reflexivity.
  - discriminate.
  - apply Nat.leb_le. vm_compute. reflexivity.
Defined.

(* ================================================================== *)
(** * The main loop *)

Ltac unfold_M :=
  unfold mbind, st_mbind, st_bind, st_get, st_put, st_lift, mret, st_mret, st_ret;
  cbv beta iota.

Ltac unfold_M_in H :=
  unfold mbind, st_mbind, st_bind, st_get, st_put, st_lift, mret, st_mret, st_ret in H;
  cbv beta iota in H.

Lemma has_replied_state (botname : string) (P : platform) (t : thing) (s : state) :
  snd (has_replied botname P t s) = s.
Proof.
  unfold has_replied. unfold_M.
  destruct t as [c|sub].
  - destruct (get_submission_tree P (posted s) (c_permalink c)) as [[|first rest]|e];
      reflexivity.
  - destruct (submission_comments P (posted s) sub); reflexivity.
Qed.

Lemma reply_seen (botname : string) (P : platform) (t : thing) (text : string)
    (s : state) :
  seen (snd (reply botname P t text s)) = seen s.
Proof.
  unfold reply. destruct (thing_author t) as [name|]; [|reflexivity].
  destruct (String.eqb name botname); [reflexivity|].
  unfold_M. destruct (send_reply P (posted s) t text); reflexivity.
Qed.

Lemma reply_cases (botname : string) (P : platform) (t : thing) (text : string)
    (s : state) (r : res unit) (s' : state) :
  reply botname P t text s = (r, s') ->
  s' = s \/
  (r = Ok tt /\ (exists name, thing_author t = Some name /\ name <> botname) /\
   send_reply P (posted s) t text = Ok tt /\
   s' = {| seen := seen s; posted := posted s ++ [(thing_id t, text)] |}).
Proof.
  unfold reply. destruct (thing_author t) as [name|]; [|intros [= _ <-]; left; reflexivity].
  destruct (String.eqb_spec name botname) as [_|Hne];
    [intros [= _ <-]; left; reflexivity|].
  unfold_M. destruct (send_reply P (posted s) t text) as [[]|e] eqn:Es.
  - intros [= <- <-]. right. split; [reflexivity|]. split; [eauto|]. auto.
  - intros [= _ <-]. left. reflexivity.
Qed.

Lemma thing_loop_ctl_spec botname unescape unquote P fmtc (content : list thing)
    (s : state) :
  thing_loop botname unescape unquote P fmtc content s =
  (res_unit (fst (thing_loop_ctl botname unescape unquote P fmtc content s)),
   snd (thing_loop_ctl botname unescape unquote P fmtc content s)).
Proof.
  revert s. induction content as [|t rest IH]; intros s; [reflexivity|].
  cbn [thing_loop thing_loop_ctl]. unfold_M.
  destruct (LimitedSet.contains _ _); [reflexivity|].
  destruct (get_maps_from_thing _ _ _) as [[|r rs]|e]; [apply IH| |reflexivity].
  destruct (has_replied _ _ _ _) as [[[|]|e] s2]; [reflexivity| |reflexivity].
  destruct (fmtc _) as [text|e]; [|reflexivity].
  destruct (reply _ _ _ _ _) as [[[]|e] s3]; [apply IH|reflexivity].
Qed.

Lemma thing_loop_ctl_prefix botname unescape unquote P fmtc (pre : list thing)
    (s s' : state) :
  thing_loop_ctl botname unescape unquote P fmtc pre s = (Ok true, s') ->
  (forall post, thing_loop botname unescape unquote P fmtc (pre ++ post) s =
                thing_loop botname unescape unquote P fmtc post s') /\
  seen s' = add_ids pre (seen s).
Proof.
  revert s. induction pre as [|t rest IH]; intros s Hctl.
  - injection Hctl as <-. split; reflexivity.
  - cbn [thing_loop_ctl] in Hctl. unfold_M_in Hctl.
    cbn [app thing_loop]. unfold_M.
    destruct (LimitedSet.contains _ _); [discriminate|].
    destruct (get_maps_from_thing _ _ _) as [[|r rs]|e]; [| |discriminate].
    + apply IH in Hctl as [Hp Hs]. split; [exact Hp|]. rewrite Hs. reflexivity.
    + pose proof (has_replied_state botname P t
                    {| seen := LimitedSet.add (thing_id t) (seen s); posted := posted s |})
        as Hst.
      destruct (has_replied _ _ _ _) as [[[|]|e] s2]; [discriminate| |discriminate].
      simpl in Hst. subst s2.
      destruct (fmtc _) as [text|e]; [|discriminate].
      pose proof (reply_seen botname P t text
                    {| seen := LimitedSet.add (thing_id t) (seen s); posted := posted s |})
        as Hr.
      destruct (reply _ _ _ _ _) as [[[]|e] s3]; [|discriminate].
      simpl in Hr. apply IH in Hctl as [Hp Hs]. split; [exact Hp|].
      rewrite Hs, Hr. reflexivity.
Qed.

(** C4: reply on an item whose author name is the configured bot account
    returns without error, posts nothing and leaves the state unchanged,
    whatever text (hence whatever references) it was given. *)
Theorem reply_self_guard (botname : string) (P : platform) (t : thing)
    (text : string) (s : state) :
  thing_author t = Some botname ->
  reply botname P t text s = (Ok tt, s).
Proof.
  intros Ha. unfold reply. rewrite Ha, String.eqb_refl. reflexivity.
Qed.

Lemma reply_self_guard_witness :
  reply bot_account platform_replied (mk_comment "c1" (Some bot_account) link_b1)
    "map 1" (state_with []) = (Ok tt, state_with []).
Proof. apply reply_self_guard. reflexivity. Defined.

(** C3: at a new item (id not in the set) whose extraction succeeds with at
    least one reference and for which has_replied answers true (evaluated
    with the id already recorded), thing_loop ends without error in the
    state where only the id has been added: nothing is composed or posted
    (format_comment_cfg is arbitrary) and the older items are not walked. *)
Theorem thing_loop_stops_when_replied botname unescape unquote (P : platform)
    (fmtc : list map_ref -> res string) (t : thing) (rest : list thing)
    (s : state) (found : list map_ref) :
  LimitedSet.contains (thing_id t) (seen s) = false ->
  get_maps_from_thing unescape unquote t = Ok found ->
  found <> [] ->
  let s1 := {| seen := LimitedSet.add (thing_id t) (seen s); posted := posted s |} in
  fst (has_replied botname P t s1) = Ok true ->
  thing_loop botname unescape unquote P fmtc (t :: rest) s = (Ok tt, s1).
Proof.
  intros Hc Hg Hne s1 Hr.
  cbn [thing_loop]. unfold_M. rewrite Hc, Hg.
  destruct found as [|r rs]; [congruence|]. fold s1.
  pose proof (has_replied_state botname P t s1) as Hst.
  destruct (has_replied botname P t s1) as [r' s2].
  simpl in Hr, Hst. subst r' s2. reflexivity.
Qed.

Lemma thing_loop_stops_when_replied_witness :
  thing_loop bot_account unescape_basic unquote_ascii platform_replied cfg_format
    [mk_comment "c1" (Some "someone") link_b1; mk_comment "c0" (Some "someone") link_b1]
    (state_with [])
  = (Ok tt, {| seen := LimitedSet.add "c1" (seen (state_with []));
               posted := posted (state_with []) |}).
Proof.
  apply (thing_loop_stops_when_replied bot_account unescape_basic unquote_ascii
           platform_replied cfg_format (mk_comment "c1" (Some "someone") link_b1)
           [mk_comment "c0" (Some "someone") link_b1] (state_with []) [("b", "1")]).
  - reflexivity.
  - reflexivity.
  - discriminate.
  - reflexivity.
Defined.

(** C2 (counterexample): a recency set of capacity 2 holding only C, and a
    stream [A; B; C] where A and B have no links: adding A and B evicts C,
    so the walk reaches C as a new item, records it and answers it. *)
Lemma thing_loop_walks_evicted_item :
  let s0 := {| seen := {| LimitedSet.capacity := 2; LimitedSet.elems := ["c"] |};
               posted := [] |} in
  LimitedSet.contains "c" (seen s0) = true /\
  thing_loop bot_account unescape_basic unquote_ascii platform_fresh cfg_format
    [mk_comment "a" (Some "someone") "no links";
     mk_comment "b" (Some "someone") "none here either";
     mk_comment "c" (Some "someone") link_b1]
    s0
  = (Ok tt, {| seen := {| LimitedSet.capacity := 2; LimitedSet.elems := ["b"; "c"] |};
               posted := [("c", "H" +:+ line_break +:+ "map 1" +:+ line_break +:+ "F")] |}).
Proof. split; vm_compute; reflexivity. Qed.

(** One step of thing_loop at a new item whose extraction found references:
    the id is recorded, then has_replied, format_comment and reply run in
    turn, and the walk goes on only after a reply that did not raise. *)
Lemma thing_loop_cons_found botname unescape unquote (P : platform)
    (fmtc : list map_ref -> res string) (t : thing) (rest : list thing)
    (s : state) (found : list map_ref) :
  LimitedSet.contains (thing_id t) (seen s) = false ->
  get_maps_from_thing unescape unquote t = Ok found ->
  found <> [] ->
  thing_loop botname unescape unquote P fmtc (t :: rest) s =
  (let s1 := {| seen := LimitedSet.add (thing_id t) (seen s); posted := posted s |} in
   match fst (has_replied botname P t s1) with
   | Ok true => (Ok tt, s1)
   | Raise e => (Raise e, s1)
   | Ok false =>
       match fmtc found with
       | Raise e => (Raise e, s1)
       | Ok text =>
           match reply botname P t text s1 with
           | (Ok _, s3) => thing_loop botname unescape unquote P fmtc rest s3
           | (Raise e, s3) => (Raise e, s3)
           end
       end
   end).
Proof.
  intros Hc Hg Hne. cbv zeta.
  cbn [thing_loop]. unfold_M. rewrite Hc, Hg.
  destruct found as [|r rs]; [congruence|].
  set (s1 := {| seen := LimitedSet.add (thing_id t) (seen s); posted := posted s |}).
  pose proof (has_replied_state botname P t s1) as Hst.
  destruct (has_replied botname P t s1) as [[[|]|e] s2]; simpl in Hst; subst s2;
    [reflexivity| |reflexivity].
  cbn [fst]. destruct (fmtc (r :: rs)) as [text|e]; [|reflexivity].
  destruct (reply botname P t text s1) as [[[]|e] s3]; reflexivity.
Qed.

(** C2 (amended): thing_loop walks the stream in the given order;
    (1) it ends as [thing_loop_ctl], which tells whether it stopped at a
        break;
    (2) at an item whose id is in the set when it is reached it stops at
        once, changing nothing;
    (3) a new item's id is added before the item is examined: an error of
        the extraction propagates with the id already recorded;
    (4) a new item without references is skipped after being recorded;
    (5) after a prefix walked to its end (no break and no error), an item
        whose id is then in the set ends the walk there, nothing of it or
        of what follows is processed, and the set holds the prefix's ids
        added in order; e.g. [A; B; C] with C seen processes and inserts
        exactly A and B when the walk of [A; B] has no break or error and
        adding A and B does not evict C;
    (6) at a new item with references for which has_replied answers true,
        the walk ends without error: only the item's id has been added,
        and the older items (any [rest]) are not examined;
    (7) if has_replied raises there, (8) if composing the comment raises,
        or (9) if reply raises, the walk ends with that exception and only
        the item's id added;
    (10) after a reply that did not raise the walk goes on with the older
        items. *)
Theorem thing_loop_stop_rules botname unescape unquote (P : platform)
    (fmtc : list map_ref -> res string) :
  (forall content s,
     thing_loop botname unescape unquote P fmtc content s =
     (res_unit (fst (thing_loop_ctl botname unescape unquote P fmtc content s)),
      snd (thing_loop_ctl botname unescape unquote P fmtc content s))) /\
  (forall t rest s,
     LimitedSet.contains (thing_id t) (seen s) = true ->
     thing_loop botname unescape unquote P fmtc (t :: rest) s = (Ok tt, s)) /\
  (forall t rest s e,
     LimitedSet.contains (thing_id t) (seen s) = false ->
     get_maps_from_thing unescape unquote t = Raise e ->
     thing_loop botname unescape unquote P fmtc (t :: rest) s =
     (Raise e, {| seen := LimitedSet.add (thing_id t) (seen s); posted := posted s |})) /\
  (forall t rest s,
     LimitedSet.contains (thing_id t) (seen s) = false ->
     get_maps_from_thing unescape unquote t = Ok [] ->
     thing_loop botname unescape unquote P fmtc (t :: rest) s =
     thing_loop botname unescape unquote P fmtc rest
       {| seen := LimitedSet.add (thing_id t) (seen s); posted := posted s |}) /\
  (forall pre c post s s',
     thing_loop_ctl botname unescape unquote P fmtc pre s = (Ok true, s') ->
     LimitedSet.contains (thing_id c) (seen s') = true ->
     thing_loop botname unescape unquote P fmtc (pre ++ c :: post) s = (Ok tt, s') /\
     seen s' = add_ids pre (seen s)) /\
  (forall t rest s found,
     LimitedSet.contains (thing_id t) (seen s) = false ->
     get_maps_from_thing unescape unquote t = Ok found -> found <> [] ->
     fst (has_replied botname P t
            {| seen := LimitedSet.add (thing_id t) (seen s); posted := posted s |})
       = Ok true ->
     thing_loop botname unescape unquote P fmtc (t :: rest) s =
     (Ok tt, {| seen := LimitedSet.add (thing_id t) (seen s); posted := posted s |})) /\
  (forall t rest s found e,
     LimitedSet.contains (thing_id t) (seen s) = false ->
     get_maps_from_thing unescape unquote t = Ok found -> found <> [] ->
     fst (has_replied botname P t
            {| seen := LimitedSet.add (thing_id t) (seen s); posted := posted s |})
       = Raise e ->
     thing_loop botname unescape unquote P fmtc (t :: rest) s =
     (Raise e, {| seen := LimitedSet.add (thing_id t) (seen s); posted := posted s |})) /\
  (forall t rest s found e,
     LimitedSet.contains (thing_id t) (seen s) = false ->
     get_maps_from_thing unescape unquote t = Ok found -> found <> [] ->
     fst (has_replied botname P t
            {| seen := LimitedSet.add (thing_id t) (seen s); posted := posted s |})
       = Ok false ->
     fmtc found = Raise e ->
     thing_loop botname unescape unquote P fmtc (t :: rest) s =
     (Raise e, {| seen := LimitedSet.add (thing_id t) (seen s); posted := posted s |})) /\
  (forall t rest s found text e,
     LimitedSet.contains (thing_id t) (seen s) = false ->
     get_maps_from_thing unescape unquote t = Ok found -> found <> [] ->
     fst (has_replied botname P t
            {| seen := LimitedSet.add (thing_id t) (seen s); posted := posted s |})
       = Ok false ->
     fmtc found = Ok text ->
     fst (reply botname P t text
            {| seen := LimitedSet.add (thing_id t) (seen s); posted := posted s |})
       = Raise e ->
     thing_loop botname unescape unquote P fmtc (t :: rest) s =
     (Raise e, {| seen := LimitedSet.add (thing_id t) (seen s); posted := posted s |})) /\
  (forall t rest s found text,
     LimitedSet.contains (thing_id t) (seen s) = false ->
     get_maps_from_thing unescape unquote t = Ok found -> found <> [] ->
     fst (has_replied botname P t
            {| seen := LimitedSet.add (thing_id t) (seen s); posted := posted s |})
       = Ok false ->
     fmtc found = Ok text ->
     fst (reply botname P t text
            {| seen := LimitedSet.add (thing_id t) (seen s); posted := posted s |})
       = Ok tt ->
     thing_loop botname unescape unquote P fmtc (t :: rest) s =
     thing_loop botname unescape unquote P fmtc rest
       (snd (reply botname P t text
               {| seen := LimitedSet.add (thing_id t) (seen s); posted := posted s |}))).
Proof.
  split; [|split; [|split; [|split; [|split; [|split; [|split; [|split; [|split]]]]]]]].
  - apply thing_loop_ctl_spec.
  - intros t rest s Hc. cbn [thing_loop]. unfold_M. rewrite Hc. reflexivity.
  - intros t rest s e Hc Hg. cbn [thing_loop]. unfold_M. rewrite Hc, Hg. reflexivity.
  - intros t rest s Hc Hg. cbn [thing_loop]. unfold_M. rewrite Hc, Hg. reflexivity.
  - intros pre c post s s' Hctl Hc.
    destruct (thing_loop_ctl_prefix botname unescape unquote P fmtc pre s s' Hctl)
      as [Hp Hs].
    split; [|exact Hs]. rewrite Hp. cbn [thing_loop]. unfold_M. rewrite Hc.
    reflexivity.
  - intros t rest s found Hc Hg Hne Hr.
    rewrite (thing_loop_cons_found _ _ _ _ _ _ _ _ _ Hc Hg Hne). cbv zeta.
    rewrite Hr. reflexivity.
  - intros t rest s found e Hc Hg Hne Hr.
    rewrite (thing_loop_cons_found _ _ _ _ _ _ _ _ _ Hc Hg Hne). cbv zeta.
    rewrite Hr. reflexivity.
  - intros t rest s found e Hc Hg Hne Hr Hf.
    rewrite (thing_loop_cons_found _ _ _ _ _ _ _ _ _ Hc Hg Hne). cbv zeta.
    rewrite Hr, Hf. reflexivity.
  - intros t rest s found text e Hc Hg Hne Hr Hf Hp.
    rewrite (thing_loop_cons_found _ _ _ _ _ _ _ _ _ Hc Hg Hne). cbv zeta.
    rewrite Hr, Hf.
    set (s1 := {| seen := LimitedSet.add (thing_id t) (seen s); posted := posted s |})
      in *.
    destruct (reply botname P t text s1) as [r3 s3] eqn:Er.
    simpl in Hp. subst r3.
    apply reply_cases in Er as [->|(Hok & _)]; [reflexivity | discriminate].
  - intros t rest s found text Hc Hg Hne Hr Hf Hp.
    rewrite (thing_loop_cons_found _ _ _ _ _ _ _ _ _ Hc Hg Hne). cbv zeta.
    rewrite Hr, Hf.
    destruct (reply botname P t text _) as [r3 s3].
    simpl in Hp |- *. subst r3. reflexivity.
Qed.

(** Rule (5) on [A; B; C] with C seen and A, B without links, and rule (6)
    on [A; B] where A links a beatmap in a thread the bot has answered. *)
Lemma thing_loop_stop_rules_witness :
  (thing_loop bot_account unescape_basic unquote_ascii platform_replied cfg_format
     [mk_comment "a" (Some "someone") "no links";
      mk_comment "b" (Some "someone") "none here either";
      mk_comment "c" (Some "someone") link_b1]
     (state_with ["c"])
   = (Ok tt, state_with ["c"; "a"; "b"]) /\
   seen (state_with ["c"; "a"; "b"]) =
   add_ids [mk_comment "a" (Some "someone") "no links";
            mk_comment "b" (Some "someone") "none here either"]
     (seen (state_with ["c"]))) /\
  thing_loop bot_account unescape_basic unquote_ascii platform_replied cfg_format
    [mk_comment "a" (Some "someone") link_b1;
     mk_comment "b" (Some "someone") link_b1]
    (state_with [])
  = (Ok tt, {| seen := LimitedSet.add "a" (seen (state_with []));
               posted := posted (state_with []) |}).
Proof.
  destruct (thing_loop_stop_rules bot_account unescape_basic unquote_ascii
              platform_replied cfg_format) as (_ & _ & _ & _ & H5 & H6 & _).
  split.
  - apply (H5 [mk_comment "a" (Some "someone") "no links";
               mk_comment "b" (Some "someone") "none here either"]
              (mk_comment "c" (Some "someone") link_b1) [] (state_with ["c"])
              (state_with ["c"; "a"; "b"])).
    + vm_compute. reflexivity.
    + vm_compute. reflexivity.
  - apply (H6 (mk_comment "a" (Some "someone") link_b1)
              [mk_comment "b" (Some "someone") link_b1] (state_with []) [("b", "1")]).
    + reflexivity.
    + reflexivity.
    + discriminate.
    + reflexivity.
Defined.

(* ================================================================== *)
(** * Start-up *)

(** C9 (counterexample): without config.ini the script ends with exit(),
    i.e. SystemExit(None), whose exit status is 0. *)
Lemma startup_missing_config_status_zero :
  last (startup false) = Some (Exit 0).
Proof. reflexivity. Qed.

(** C9 (amended): without config.ini the script prints its two lines and
    exits with status 0; the bot itself (config, login, streams) is never
    started.  With the file present, the bot runs. *)
Theorem startup_missing_config :
  startup false =
    [Print "No config file found.";
     Print "Copy config_example.ini to config.ini and modify to your needs.";
     Exit 0] /\
  ~ In RunBot (startup false) /\
  startup true = [RunBot].
Proof.
  split; [reflexivity|]. split; [|reflexivity].
  simpl. intros [H|[H|[H|[]]]]; discriminate.
Qed.

(* ================================================================== *)
(** * Further properties of the code *)

(** ** seconds_to_string *)

Lemma parse_string_of_uint (u : Decimal.uint) : parse_uint (string_of_uint u) = Some u.
Proof. induction u; simpl; rewrite ?IHu; reflexivity. Qed.

Lemma parse_string_of_int (d : Decimal.signed_int) : parse_int (string_of_int d) = Some d.
Proof.
  destruct d as [u|u]; simpl.
  - destruct u; simpl; rewrite ?parse_string_of_uint; reflexivity.
  - rewrite parse_string_of_uint. reflexivity.
Qed.

Lemma string_of_uint_no_colon (u : Decimal.uint) : Str.mem ":" (string_of_uint u) = false.
Proof. induction u; simpl; rewrite ?IHu; reflexivity. Qed.

Lemma string_of_int_no_colon (d : Decimal.signed_int) : Str.mem ":" (string_of_int d) = false.
Proof. destruct d; simpl; rewrite string_of_uint_no_colon; reflexivity. Qed.

Lemma drop_S_app (p : string) (c : ascii) (s : string) :
  Str.drop (Datatypes.S (String.length p)) (p +:+ String c s) = s.
Proof. induction p; simpl; auto. Qed.

(** The seconds field, for each of the sixty remainders. *)
Lemma seconds_field (r : Z) :
  (0 <= r < 60)%Z ->
  exists d1 d2, rjust_zero 2 (py_str_int r) = String d1 (String d2 EmptyString) /\
    option_map Z.of_uint (parse_uint (String d1 (String d2 EmptyString))) = Some r.
Proof.
  intros Hr. rewrite <- (Z2Nat.id r) by lia.
  assert (Hk : (Z.to_nat r < 60)%nat) by lia.
  generalize (Z.to_nat r) Hk. clear r Hr Hk. intros k Hk.
  do 60 (destruct k as [|k]; [eexists _, _; split; reflexivity|]). lia.
Qed.

(** seconds_to_string renders any int n as str(n // 60), a colon and the
    remainder n mod 60 as exactly two digits; reading the two fields back
    gives n. *)
Theorem seconds_to_string_round_trip (n : Z) :
  (exists d1 d2,
     seconds_to_string n =
       py_str_int (n / 60)%Z +:+ String ":" (String d1 (String d2 EmptyString))) /\
  parse_mss (seconds_to_string n) = Some n.
Proof.
  destruct (seconds_field (n mod 60)%Z) as (d1 & d2 & Hf & Hp);
    [apply Z.mod_pos_bound; lia|].
  unfold seconds_to_string. rewrite Hf, app_String, app_Empty.
  split; [exists d1, d2; reflexivity|].
  unfold parse_mss, py_str_int.
  rewrite find_app_absent by apply string_of_int_no_colon.
  rewrite take_app, parse_string_of_int. cbn [mbind option_bind].
  rewrite drop_S_app.
  destruct (parse_uint (String d1 (String d2 EmptyString))) as [u|]; [|discriminate].
  injection Hp as Hp. cbn [mbind option_bind]. rewrite DecimalZ.of_to, Hp.
  f_equal. pose proof (Z.div_mod n 60). lia.
Qed.

(** ** sanitise_md *)

Lemma mem_app (c : ascii) (a b : string) :
  Str.mem c (a +:+ b) = Str.mem c a || Str.mem c b.
Proof. induction a as [|c' a IH]; simpl; [reflexivity|]. rewrite IH. apply orb_assoc. Qed.

Lemma replace_from_absent (d : ascii) (old new : string) (k : nat) (s : string) :
  Str.mem d s = false -> Str.mem d new = false ->
  Str.mem d (replace_from old new k s) = false.
Proof.
  revert k. induction s as [|c s IH]; intros k Hs Hn; [destruct k; reflexivity|].
  simpl in Hs. apply orb_false_iff in Hs as [Hc Hs].
  destruct k as [|k]; cbn [replace_from]; [|apply IH; assumption].
  destruct (String.prefix old (String c s)).
  - rewrite mem_app, Hn. apply IH; assumption.
  - simpl. rewrite Hc. apply IH; assumption.
Qed.

Lemma replace_from_removes (c : ascii) (new s : string) :
  Str.mem c new = false ->
  Str.mem c (replace_from (String c EmptyString) new 0 s) = false.
Proof.
  intros Hn. induction s as [|d s IH]; [reflexivity|].
  cbn [replace_from String.prefix]. destruct (ascii_dec c d) as [<-|Hne].
  - rewrite prefix_empty. simpl. rewrite mem_app, Hn. exact IH.
  - simpl. rewrite IH. unfold Str.char_eqb.
    destruct (Ascii.eqb_spec c d); [contradiction | reflexivity].
Qed.

Lemma replace_from_id (o : ascii) (r0 new s : string) :
  Str.mem o s = false -> replace_from (String o r0) new 0 s = s.
Proof.
  induction s as [|d s IH]; intros Hs; [reflexivity|].
  simpl in Hs. apply orb_false_iff in Hs as [Hd Hs].
  cbn [replace_from String.prefix]. destruct (ascii_dec o d) as [<-|_].
  - unfold Str.char_eqb in Hd. rewrite Ascii.eqb_refl in Hd. discriminate.
  - rewrite IH by exact Hs. reflexivity.
Qed.

(** sanitise_md removes every asterisk and underscore (they become the
    character references [&#0042;] and [&#0095;]). *)
Theorem sanitise_md_no_emphasis (s : string) :
  Str.mem "*" (sanitise_md s) = false /\ Str.mem "_" (sanitise_md s) = false.
Proof.
  unfold sanitise_md. cbn [fold_left list_ascii_of_string map app str_replace].
  split;
    repeat first [ apply replace_from_removes; vm_compute; reflexivity
                 | apply replace_from_absent; [|vm_compute; reflexivity] ].
Qed.

(** sanitise_md leaves text alone that holds none of the characters
    * _ \ [ ] ^ ~. *)
Theorem sanitise_md_plain_text (s : string) :
  Forall (fun c => Str.mem c s = false)
    ["*"; "_"; backslash; "["; "]"; "^"; "~"]%char ->
  sanitise_md s = s.
Proof.
  intros Hs. rewrite !Forall_cons in Hs.
  destruct Hs as (H1 & H2 & H3 & H4 & H5 & H6 & H7 & _).
  unfold sanitise_md. cbn [fold_left list_ascii_of_string map app str_replace].
  rewrite (replace_from_id "*") by exact H1.
  rewrite (replace_from_id "_") by exact H2.
  rewrite (replace_from_id backslash) by exact H3.
  rewrite (replace_from_id "[") by exact H4.
  rewrite (replace_from_id "]") by exact H5.
  rewrite (replace_from_id "^") by exact H6.
  rewrite (replace_from_id "~") by exact H7.
  reflexivity.
Qed.

Lemma sanitise_md_plain_text_witness :
  sanitise_md "Freedom Dive (Another)" = "Freedom Dive (Another)".
Proof.
  apply sanitise_md_plain_text. repeat constructor.
Defined.

(** ** get_map_params *)

Lemma urlparse_raise (url : string) (e : exn) :
  Url.urlparse url = Raise e -> e = ValueError.
Proof.
  unfold Url.urlparse.
  destruct (Url.urlsplit url) as [[[[[a b] c] d] f]|e'] eqn:E; cbn.
  - destruct (_ && _); [destruct (Url.splitparams c)|]; discriminate.
  - intros [= <-]. unfold Url.urlsplit in E.
    repeat case_match; cbn in E; congruence.
Qed.

(** The only exception of the body after urlparse is TypeError, and it is
    raised exactly when the path is none of /b/..., /s/... and /p/beatmap
    with b or s in its query. *)
Lemma get_map_params_parsed_raise (unquote : string -> string)
    (parsed : Url.parse_result) (e : exn) :
  get_map_params_parsed unquote parsed = Raise e <->
  e = TypeError /\
  Str.startswith "/b/" (Url.path parsed) = false /\
  Str.startswith "/s/" (Url.path parsed) = false /\
  (Url.path parsed <> "/p/beatmap" \/
   (parse_qs unquote (Url.query parsed) !! "b" = None /\
    parse_qs unquote (Url.query parsed) !! "s" = None)).
Proof.
  unfold get_map_params_parsed.
  destruct (Str.startswith "/b/" (Url.path parsed)) eqn:Eb.
  { cbn. destruct (Str.isdigit _); split; [discriminate|intuition congruence
                                          |discriminate|intuition congruence]. }
  destruct (Str.startswith "/s/" (Url.path parsed)) eqn:Es.
  { cbn. destruct (Str.isdigit _); split; [discriminate|intuition congruence
                                          |discriminate|intuition congruence]. }
  destruct (String.eqb_spec (Url.path parsed) "/p/beatmap") as [Ep|Ep].
  - destruct (parse_qs unquote (Url.query parsed) !! "b") as [vs|] eqn:Hb.
    + destruct (first_value_nonempty vs (parse_qs_values_nonempty _ _ _ _ Hb))
        as (v & _ & Hf).
      rewrite Hf. cbn. destruct (Str.isdigit _); split; intuition congruence.
    + destruct (parse_qs unquote (Url.query parsed) !! "s") as [vs|] eqn:Hs.
      * destruct (first_value_nonempty vs (parse_qs_values_nonempty _ _ _ _ Hs))
          as (v & _ & Hf).
        rewrite Hf. cbn. destruct (Str.isdigit _); split; intuition congruence.
      * cbn [mbind res_bind].
        split; [intros H; injection H as <-; intuition | intros (-> & _); reflexivity].
  - cbn [mbind res_bind].
    split; [intros H; injection H as <-; intuition | intros (-> & _); reflexivity].
Qed.

(** get_map_params raises only ValueError (from urlparse, on a netloc with
    an unmatched square bracket) or TypeError (when the parsed URL has none
    of the four shapes); TypeError exactly in that case. *)
Theorem get_map_params_errors (unquote : string -> string) (url : string) (e : exn) :
  get_map_params unquote url = Raise e <->
  (Url.urlparse url = Raise ValueError /\ e = ValueError) \/
  (exists parsed, Url.urlparse url = Ok parsed /\ e = TypeError /\
     Str.startswith "/b/" (Url.path parsed) = false /\
     Str.startswith "/s/" (Url.path parsed) = false /\
     (Url.path parsed <> "/p/beatmap" \/
      (parse_qs unquote (Url.query parsed) !! "b" = None /\
       parse_qs unquote (Url.query parsed) !! "s" = None))).
Proof.
  unfold get_map_params.
  destruct (Url.urlparse url) as [parsed|e'] eqn:Eu; cbn.
  - rewrite get_map_params_parsed_raise. split.
    + intros H. right. exists parsed. auto.
    + intros [[? _]|(p & [= <-] & H)]; [discriminate | exact H].
  - pose proof (urlparse_raise url e' Eu) as ->. split.
    + intros [= <-]. left. auto.
    + intros [[_ ->]|(p & ? & _)]; [reflexivity | discriminate].
Qed.

(** A reference returned by get_map_params has kind b or s and a non-empty
    all-digit id without ampersand. *)
Theorem get_map_params_result_shape (unquote : string -> string) (url t id : string) :
  get_map_params unquote url = Ok (Some (t, id)) ->
  (t = "b" \/ t = "s") /\ Str.isdigit id = true /\ Str.mem "&" id = false.
Proof.
  unfold get_map_params. destruct (Url.urlparse url) as [parsed|e]; [|discriminate].
  cbn [mbind res_bind]. unfold get_map_params_parsed.
  assert (Hdone : forall ty v, Str.isdigit (before_amp v) = true ->
            ty = t -> before_amp v = id ->
            (ty = "b" \/ ty = "s") ->
            (t = "b" \/ t = "s") /\ Str.isdigit id = true /\ Str.mem "&" id = false).
  { intros ty v Hd <- <- Ht. split; [exact Ht|]. split; [exact Hd|].
    apply isdigit_no_amp, Hd. }
  destruct (Str.startswith "/b/" (Url.path parsed)).
  { cbn [mbind res_bind first_value]. intros H. destruct (Str.isdigit (before_amp _)) eqn:Hd; [|discriminate].
    injection H as <- <-. eapply Hdone; eauto. }
  destruct (Str.startswith "/s/" (Url.path parsed)).
  { cbn [mbind res_bind first_value]. intros H. destruct (Str.isdigit (before_amp _)) eqn:Hd; [|discriminate].
    injection H as <- <-. eapply Hdone; eauto. }
  destruct (String.eqb (Url.path parsed) "/p/beatmap"); [|discriminate].
  destruct (parse_qs unquote (Url.query parsed) !! "b") as [[|v vs]|].
  - discriminate.
  - cbn [mbind res_bind first_value]. intros H. destruct (Str.isdigit (before_amp _)) eqn:Hd; [|discriminate].
    injection H as <- <-. eapply Hdone; eauto.
  - destruct (parse_qs unquote (Url.query parsed) !! "s") as [[|v vs]|].
    + discriminate.
    + cbn [mbind res_bind first_value]. intros H. destruct (Str.isdigit (before_amp _)) eqn:Hd; [|discriminate].
      injection H as <- <-. eapply Hdone; eauto.
    + discriminate.
Qed.

Lemma get_map_params_result_shape_witness :
  ("s" = "b" \/ "s" = "s") /\ Str.isdigit "295480" = true /\ Str.mem "&" "295480" = false.
Proof.
  apply (get_map_params_result_shape unquote_ascii "https://osu.ppy.sh/p/beatmap?s=295480").
  reflexivity.
Defined.

(** ** get_maps_from_html *)

Lemma mapM_res_raise {A B} (f : A -> res B) (l : list A) (e : exn) :
  mapM f l = Raise e -> exists x, x ∈ l /\ f x = Raise e.
Proof.
  induction l as [|x l IH]; simpl; [discriminate|].
  destruct (f x) as [y|e'] eqn:Ef; cbn [mbind res_bind].
  - destruct (mapM f l) as [ys|e''] eqn:El; cbn [mbind res_bind]; [discriminate|].
    intros [= ->]. destruct (IH eq_refl) as (z & Hz & Hf).
    exists z. split; [apply list_elem_of_further, Hz | exact Hf].
  - intros [= ->]. exists x. split; [apply list_elem_of_here | exact Ef].
Qed.

Lemma mapM_res_some_raise {A B} (f : A -> res B) (l : list A) (x : A) (e : exn) :
  x ∈ l -> f x = Raise e -> exists e', mapM f l = Raise e'.
Proof.
  induction l as [|y l IH]; intros Hx Hf; [apply elem_of_nil in Hx; contradiction|].
  simpl. apply elem_of_cons in Hx as [->|Hx].
  - rewrite Hf. cbn [mbind res_bind]. eauto.
  - destruct (f y) as [z|e'']; cbn [mbind res_bind]; [|eauto].
    destruct (IH Hx Hf) as (e' & ->). cbn [mbind res_bind]. eauto.
Qed.

(** get_maps_from_html is all or nothing: it raises exactly when
    get_map_params raises on one of the matched URLs, and then with the
    exception of such a URL, so one bad link loses every reference of the
    text. *)
Theorem get_maps_from_html_all_or_nothing (unescape unquote : string -> string)
    (html : string) :
  (forall e, get_maps_from_html unescape unquote html = Raise e ->
     exists z, z ∈ findall html /\ get_map_params unquote (unescape z) = Raise e) /\
  (forall z e, z ∈ findall html -> get_map_params unquote (unescape z) = Raise e ->
     exists e', get_maps_from_html unescape unquote html = Raise e').
Proof.
  unfold get_maps_from_html. split.
  - intros e. destruct (mapM _ _) as [rs|e'] eqn:Hm; cbn [mbind res_bind];
      [discriminate|].
    intros [= ->]. exact (mapM_res_raise _ _ _ Hm).
  - intros z e Hz Hf.
    destruct (mapM_res_some_raise (fun z => get_map_params unquote (unescape z))
                (findall html) z e Hz Hf) as (e' & ->).
    exists e'. reflexivity.
Qed.

Lemma get_maps_from_html_all_or_nothing_witness :
  exists e', get_maps_from_html unescape_basic unquote_ascii
               (anchor "https://osu.ppy.sh/b/1" "https://osu.ppy.sh/b/1"
                +:+ anchor "https://osu.ppy.sh/u/2" "https://osu.ppy.sh/u/2")
             = Raise e'.
Proof.
  apply (proj2 (get_maps_from_html_all_or_nothing unescape_basic unquote_ascii
           (anchor "https://osu.ppy.sh/b/1" "https://osu.ppy.sh/b/1"
            +:+ anchor "https://osu.ppy.sh/u/2" "https://osu.ppy.sh/u/2"))
           "https://osu.ppy.sh/u/2" TypeError).
  - vm_compute. right. left.
  - reflexivity.
Defined.

(** ** format_comment *)

Lemma compose_body_bound (header footer : string) (sep_cfg : option string)
    (fmt : map_ref -> res string) (maps : list map_ref) (body out : string) :
  (body = EmptyString \/ base_len header footer + String.length body <= char_limit) ->
  compose_body header footer sep_cfg fmt body maps = Ok out ->
  out = EmptyString \/ base_len header footer + String.length out <= char_limit.
Proof.
  revert body. induction maps as [|r rest IH]; intros body Hb.
  - intros [= <-]. exact Hb.
  - cbn [compose_body]. destruct (fmt r) as [next|e]; cbn [mbind res_bind];
      [|discriminate].
    destruct (char_limit <? _) eqn:E.
    + intros [= <-]. exact Hb.
    + apply Nat.ltb_ge in E. apply IH. right.
      destruct body as [|c b].
      * rewrite length_app_str. simpl in E |- *. lia.
      * rewrite !length_app_str. lia.
Qed.

(** A comment produced by format_comment is the header, a line break, the
    body, a line break and the footer, and it is at most 10000 characters
    long unless the header and footer alone (with the two line breaks) are
    longer, in which case the body is empty. *)
Theorem format_comment_within_limit (header footer : string) (sep_cfg : option string)
    (fmt : map_ref -> res string) (maps : list map_ref) (out : string) :
  format_comment header footer sep_cfg fmt maps = Ok out ->
  exists body,
    out = header +:+ line_break +:+ body +:+ line_break +:+ footer /\
    String.length out <= Nat.max char_limit (base_len header footer).
Proof.
  unfold format_comment.
  destruct (compose_body _ _ _ _ _ _) as [body|e] eqn:Ec; cbn [mbind res_bind];
    [|discriminate].
  intros [= <-]. exists body. split; [reflexivity|].
  destruct (compose_body_bound header footer sep_cfg fmt _ _ _
              (or_introl eq_refl) Ec) as [->|Hb];
    rewrite !length_app_str; unfold base_len in *; simpl in *;
    pose proof (Nat.le_max_l char_limit (String.length header + String.length footer + 4));
    pose proof (Nat.le_max_r char_limit (String.length header + String.length footer + 4));
    lia.
Qed.

Lemma format_comment_within_limit_witness :
  exists body,
    "H" +:+ line_break +:+ "map 1" +:+ line_break +:+ "F"
      = "H" +:+ line_break +:+ body +:+ line_break +:+ "F" /\
    String.length ("H" +:+ line_break +:+ "map 1" +:+ line_break +:+ "F")
      <= Nat.max char_limit (base_len "H" "F").
Proof.
  apply (format_comment_within_limit "H" "F" None fmt_example [("b", "1")]).
  reflexivity.
Defined.

(** ** has_replied: the any(...) over reply authors *)

(** any(reply.author.name == botname ...) is true exactly when a reply of
    the bot comes before any deleted author, false exactly when all authors
    are live and none is the bot, and raises AttributeError exactly when a
    deleted author comes before any reply of the bot. *)
Theorem any_author_is_bot_cases (botname : string) (authors : list (option string)) :
  (any_author_is_bot botname authors = Ok true <->
     exists pre rest, authors = live_authors pre ++ Some botname :: rest /\ botname ∉ pre) /\
  (any_author_is_bot botname authors = Ok false <->
     exists pre, authors = live_authors pre /\ botname ∉ pre) /\
  (any_author_is_bot botname authors = Raise AttributeError <->
     exists pre rest, authors = live_authors pre ++ None :: rest /\ botname ∉ pre).
Proof.
  assert (Hpre : forall pre rest, botname ∉ pre ->
            any_author_is_bot botname (live_authors pre ++ rest) =
            any_author_is_bot botname rest).
  { induction pre as [|n pre IH]; intros rest Hn; [reflexivity|].
    rewrite elem_of_cons in Hn.
    cbn [live_authors map app any_author_is_bot].
    destruct (String.eqb_spec n botname) as [->|_]; [tauto|].
    apply IH. tauto. }
  assert (Hall : forall pre, botname ∉ pre ->
            any_author_is_bot botname (live_authors pre) = Ok false).
  { intros pre Hn. rewrite <- (app_nil_r (live_authors pre)), Hpre by exact Hn.
    reflexivity. }
  assert (Hdec : forall l : list (option string),
    (exists pre, l = live_authors pre /\ botname ∉ pre) \/
    (exists pre rest, l = live_authors pre ++ Some botname :: rest /\ botname ∉ pre) \/
    (exists pre rest, l = live_authors pre ++ None :: rest /\ botname ∉ pre)).
  { induction l as [|[n|] l IH].
    - left. exists []. split; [reflexivity | apply not_elem_of_nil].
    - destruct (String.eqb_spec n botname) as [->|Hne].
      + right; left. exists [], l. split; [reflexivity | apply not_elem_of_nil].
      + assert (Hn' : forall pre, botname ∉ pre -> botname ∉ n :: pre)
          by (intros pre Hp Hc; apply elem_of_cons in Hc as [Hc|Hc];
              [congruence | contradiction]).
        destruct IH as [(pre & -> & Hp)|[(pre & rest & -> & Hp)|(pre & rest & -> & Hp)]].
        * left. exists (n :: pre). auto.
        * right; left. exists (n :: pre), rest. auto.
        * right; right. exists (n :: pre), rest. auto.
    - right; right. exists [], l. split; [reflexivity | apply not_elem_of_nil]. }
  split; [|split]; split.
  - intros H.
    destruct (Hdec authors)
      as [(pre & -> & Hn)|[(pre & rest & -> & Hn)|(pre & rest & -> & Hn)]].
    + rewrite Hall in H by exact Hn. discriminate.
    + eauto.
    + rewrite Hpre in H by exact Hn. discriminate.
  - intros (pre & rest & -> & Hn). rewrite Hpre by exact Hn.
    simpl. rewrite String.eqb_refl. reflexivity.
  - intros H.
    destruct (Hdec authors)
      as [(pre & -> & Hn)|[(pre & rest & -> & Hn)|(pre & rest & -> & Hn)]].
    + eauto.
    + rewrite Hpre in H by exact Hn. simpl in H. rewrite String.eqb_refl in H.
      discriminate.
    + rewrite Hpre in H by exact Hn. discriminate.
  - intros (pre & -> & Hn). apply Hall, Hn.
  - intros H.
    destruct (Hdec authors)
      as [(pre & -> & Hn)|[(pre & rest & -> & Hn)|(pre & rest & -> & Hn)]].
    + rewrite Hall in H by exact Hn. discriminate.
    + rewrite Hpre in H by exact Hn. simpl in H. rewrite String.eqb_refl in H.
      discriminate.
    + eauto.
  - intros (pre & rest & -> & Hn). rewrite Hpre by exact Hn. reflexivity.
Qed.

(** ** thing_loop: what it posts and what it records *)

Ltac nothing_posted :=
  exists [], []; split; [simpl; rewrite app_nil_r; reflexivity
                        | split; [apply sublist_nil_l | constructor]].

(** Whatever happens during a walk (also when it raises), the replies it
    posts are appended to [posted], one per item at most, in stream order:
    each goes to an item of the stream with a live author other than the bot,
    whose extraction found references, with the text format_comment gave for
    them, after send_reply accepted it. *)
Theorem thing_loop_posts botname unescape unquote (P : platform)
    (fmtc : list map_ref -> res string) (content : list thing) (s : state) :
  exists ts new,
    posted (snd (thing_loop botname unescape unquote P fmtc content s)) = posted s ++ new /\
    sublist ts content /\
    Forall2 (fun t p =>
      p.1 = thing_id t /\
      (exists name, thing_author t = Some name /\ name <> botname) /\
      (exists found, get_maps_from_thing unescape unquote t = Ok found /\
                     found <> [] /\ fmtc found = Ok p.2) /\
      (exists earlier, send_reply P earlier t p.2 = Ok tt)) ts new.
Proof.
  revert s. induction content as [|t rest IH]; intros s; [nothing_posted|].
  cbn [thing_loop]. unfold_M.
  destruct (LimitedSet.contains _ _); [nothing_posted|].
  set (s1 := {| seen := LimitedSet.add (thing_id t) (seen s); posted := posted s |}).
  destruct (get_maps_from_thing unescape unquote t) as [[|f fs]|e] eqn:Hg.
  - destruct (IH s1) as (ts & new & Hp & Hsub & HF).
    exists ts, new. split; [exact Hp|]. split; [apply sublist_cons, Hsub | exact HF].
  - pose proof (has_replied_state botname P t s1) as Hst.
    destruct (has_replied botname P t s1) as [[[|]|e] s2]; simpl in Hst; subst s2;
      [nothing_posted| |nothing_posted].
    destruct (fmtc (f :: fs)) as [text|e] eqn:Hf; [|nothing_posted].
    destruct (reply botname P t text s1) as [r s3] eqn:Hr.
    apply reply_cases in Hr as [->|(-> & Ha & Hs & ->)].
    + destruct r as [[]|e].
      * destruct (IH s1) as (ts & new & Hp & Hsub & HF).
        exists ts, new. split; [exact Hp|]. split; [apply sublist_cons, Hsub | exact HF].
      * nothing_posted.
    + destruct (IH {| seen := seen s1; posted := posted s1 ++ [(thing_id t, text)] |})
        as (ts & new & Hp & Hsub & HF).
      exists (t :: ts), ((thing_id t, text) :: new). split.
      * rewrite Hp. simpl. rewrite <- app_assoc. reflexivity.
      * split; [apply sublist_skip, Hsub|]. constructor; [|exact HF].
        split; [reflexivity|]. split; [exact Ha|]. split.
        -- exists (f :: fs). split; [exact Hg|]. split; [discriminate | exact Hf].
        -- exists (posted s1). exact Hs.
  - nothing_posted.
Qed.

(** A walk records, in order, the ids of the items it visits: those of a
    prefix of the stream, including the item at which it raised or broke
    off when it stopped early. *)
Theorem thing_loop_records_prefix botname unescape unquote (P : platform)
    (fmtc : list map_ref -> res string) (content : list thing) (s : state) :
  exists k, seen (snd (thing_loop botname unescape unquote P fmtc content s)) =
            add_ids (take k content) (seen s).
Proof.
  revert s. induction content as [|t rest IH]; intros s; [exists 0; reflexivity|].
  cbn [thing_loop]. unfold_M.
  destruct (LimitedSet.contains _ _); [exists 0; reflexivity|].
  set (s1 := {| seen := LimitedSet.add (thing_id t) (seen s); posted := posted s |}).
  assert (Hstep : forall s', seen s' = seen s1 ->
            exists k, seen (snd (thing_loop botname unescape unquote P fmtc rest s')) =
                      add_ids (take k (t :: rest)) (seen s)).
  { intros s' Hs'. destruct (IH s') as (k & Hk). exists (Datatypes.S k).
    rewrite Hk, Hs'. reflexivity. }
  assert (Hstop : exists k, seen s1 = add_ids (take k (t :: rest)) (seen s))
    by (exists 1; reflexivity).
  destruct (get_maps_from_thing unescape unquote t) as [[|f fs]|e] eqn:Hg.
  - apply Hstep. reflexivity.
  - pose proof (has_replied_state botname P t s1) as Hst.
    destruct (has_replied botname P t s1) as [[[|]|e] s2]; simpl in Hst; subst s2;
      [exact Hstop| |exact Hstop].
    destruct (fmtc (f :: fs)) as [text|e] eqn:Hf; [|exact Hstop].
    pose proof (reply_seen botname P t text s1) as Hrs.
    destruct (reply botname P t text s1) as [[[]|e] s3]; simpl in Hrs.
    + apply Hstep, Hrs.
    + cbn [snd]; rewrite Hrs. exact Hstop.
  - exact Hstop.
Qed.

(** ** remove_dups *)

(** remove_dups yields each distinct item of its input exactly once, at the
    position of its first occurrence: the output has no duplicates and the
    same members as the input, appending an item appends it to the output
    only when it was not in the input yet, and an input without duplicates
    comes back unchanged. *)
Theorem remove_dups_first_occurrences (l : list map_ref) :
  NoDup (remove_dups l) /\
  (forall x, x ∈ remove_dups l <-> x ∈ l) /\
  (forall x, remove_dups (l ++ [x]) =
             remove_dups l ++ (if decide (x ∈ l) then [] else [x])) /\
  (NoDup l -> remove_dups l = l).
Proof.
  unfold remove_dups. split; [apply remove_dups_from_nodup|]. split; [|split].
  - intros x. rewrite remove_dups_from_elem.
    pose proof (not_elem_of_empty (C := gset map_ref) x). tauto.
  - intros x. rewrite remove_dups_from_snoc. f_equal.
    destruct (decide (x ∈ (∅ : gset map_ref) \/ x ∈ l)) as [[H|H]|H],
             (decide (x ∈ l)); try reflexivity; exfalso; set_solver.
  - intros Hnd. apply remove_dups_from_id; [exact Hnd|].
    intros x _. apply not_elem_of_empty.
Qed.
